(** * DonutChart: angle allocation and identity-tracked transitions

    A shallow embedding of [src/components/DonutChart.ts] and of the page
    that drives it.

    - The values of the data items and the angles stored in the registry
      are modelled by exact rationals ([Q]); rounding of IEEE doubles,
      [NaN] and the infinities are outside that part of the model.
      JavaScript and [Q] disagree on division by zero: a theorem whose
      conclusion depends on a quotient carries the hypothesis that the
      divisor is not zero.
    - The loops of [drawDonutSlice] step an angle by 0.03 until it passes a
      bound; how often they run, and whether they stop, depends on the
      rounding of each addition.  They are modelled on binary64 numbers
      ([float]); [Math.cos] and [Math.sin] are parameters.
    - Objects of the rendering library (containers, graphics, the text label)
      are handles allocated from a counter; the scene graph is the list of
      children of the stage and of the chart container.
    - gsap is not part of the sources.  The timeline created by [updateData]
      is a value held next to the chart until its [onComplete] callback
      runs; which [onUpdate] callbacks gsap runs in a frame, and the values
      it has written to their [animProps] by then, are the argument of the
      frame.
    - The pop animation of a clicked slice and [updateEuroValue] play no part
      in the properties below and are left out. *)

From Stdlib Require Import List String Ascii ZArith QArith Qabs Bool Arith Lia.
From Stdlib Require Import DecimalString.
From Stdlib Require DecimalNat.
From Stdlib Require Import Lqa.
From Stdlib Require Import Floats.
Import ListNotations.
Local Open Scope Q_scope.

(* ================================================================= *)
(** ** Identifiers: [string | number] *)

Inductive Id : Type :=
| IdNum (n : Q)
| IdStr (s : string).

(** [a === b] on identifiers: equal numbers or equal strings, never a number
    and a string. *)
Definition strict_eq (a b : Id) : bool :=
  match a, b with
  | IdNum x, IdNum y => Qeq_bool x y
  | IdStr s, IdStr t => String.eqb s t
  | _, _ => false
  end.

(** Truthiness of [item.id] where the field is optional: [undefined], the
    number zero and the empty string are falsy. *)
Definition truthy (i : option Id) : bool :=
  match i with
  | None => false
  | Some (IdNum n) => negb (Qeq_bool n 0)
  | Some (IdStr s) => negb (String.eqb s "")
  end.

(** The template literal [`slice-${index}`]. *)
Definition slice_template (index : nat) : Id :=
  IdStr ("slice-" ++ NilEmpty.string_of_uint (Nat.to_uint index)).

(** [item.id || `slice-${index}`] *)
Definition id_or_template (i : option Id) (index : nat) : Id :=
  match i with
  | Some x => if truthy i then x else slice_template index
  | None => slice_template index
  end.

(* ================================================================= *)
(** ** Data model *)

Module DonutChartData.
Record t : Type := mk { value : Q; color : Z; id : option Id }.
End DonutChartData.

(** The items produced by [data.map((item, index) => ({...item, id: ...}))]:
    the same fields with the id always present. *)
Module KeyedData.
Record t : Type := mk { value : Q; color : Z; id : Id }.
End KeyedData.

(** The items of [angleData]. *)
Module AngleData.
Record t : Type := mk { id : Id; value : Q; color : Z; percentage : Q }.
End AngleData.

(** A slice container together with the [Graphics] it received through
    [addChild]; [getChildAt(0)] is [child0]. *)
Record Container : Type := { handle : nat; child0 : nat }.

Module SliceData.
Record t : Type :=
  mk { container : Container; value : Q; startAngle : Q; endAngle : Q; id : Id }.
End SliceData.

(** The options object handed to the constructor; the optional fields are
    [None] when the key is absent. *)
Module DonutChartOptions.
Record t : Type :=
  mk { data : list DonutChartData.t;
       innerRadius : Q; outerRadius : Q; popDistance : Q;
       width : Q; height : Q;
       startAngle : option Q; endAngle : option Q; euroValue : option Q }.
End DonutChartOptions.

(** [this.options] once the constructor has merged the defaults and keyed
    the data. *)
Module Options.
Record t : Type :=
  mk { data : list KeyedData.t;
       innerRadius : Q; outerRadius : Q; popDistance : Q;
       width : Q; height : Q;
       startAngle : Q; endAngle : Q; euroValue : Q }.

Definition set_data (d : list KeyedData.t) (o : t) : t :=
  mk d (innerRadius o) (outerRadius o) (popDistance o) (width o) (height o)
     (startAngle o) (endAngle o) (euroValue o).
End Options.

(** [Math.PI], the double nearest to pi, is the rational
    [884279719003555 / 2^48]. *)
Definition Math_PI : Q := 884279719003555 # 281474976710656.

(* ================================================================= *)
(** ** The rendering surface *)

(** Arguments of the last [drawDonutSlice] call on a [Graphics]. *)
Record Arc : Type :=
  { arc_innerRadius : Q; arc_outerRadius : Q;
    arc_startAngle : Q; arc_endAngle : Q; arc_color : Z }.

Record Pixi : Type :=
  { fresh : nat;                       (* next unused object handle *)
    stage : list nat;                  (* children of app.stage *)
    chartChildren : list nat;          (* children of the chart container *)
    drawn : list (nat * Arc);          (* graphics handle, last drawing first *)
    pointerdown : list (nat * (nat * Q)) (* graphics, (container, midAngle) *) }.

Definition new_object (w : Pixi) : nat * Pixi :=
  (fresh w,
   {| fresh := S (fresh w); stage := stage w; chartChildren := chartChildren w;
      drawn := drawn w; pointerdown := pointerdown w |}).

Definition stage_addChild (h : nat) (w : Pixi) : Pixi :=
  {| fresh := fresh w; stage := stage w ++ [h]; chartChildren := chartChildren w;
     drawn := drawn w; pointerdown := pointerdown w |}.

Definition chart_addChild (h : nat) (w : Pixi) : Pixi :=
  {| fresh := fresh w; stage := stage w; chartChildren := chartChildren w ++ [h];
     drawn := drawn w; pointerdown := pointerdown w |}.

(** [container.parent?.removeChild(container)]: a child occurs at most once
    among the children of its parent; a detached container has no parent. *)
Definition chart_removeChild (h : nat) (w : Pixi) : Pixi :=
  {| fresh := fresh w; stage := stage w;
     chartChildren := filter (fun k => negb (Nat.eqb k h)) (chartChildren w);
     drawn := drawn w; pointerdown := pointerdown w |}.

Definition draw (g : nat) (a : Arc) (w : Pixi) : Pixi :=
  {| fresh := fresh w; stage := stage w; chartChildren := chartChildren w;
     drawn := (g, a) :: drawn w; pointerdown := pointerdown w |}.

Definition on_pointerdown (g : nat) (c : nat) (midAngle : Q) (w : Pixi) : Pixi :=
  {| fresh := fresh w; stage := stage w; chartChildren := chartChildren w;
     drawn := drawn w; pointerdown := pointerdown w ++ [(g, (c, midAngle))] |}.

Definition attached (c : Container) (w : Pixi) : Prop :=
  In (handle c) (chartChildren w).

(* ================================================================= *)
(** ** The chart *)

(** One [timeline.to(animProps, {...})] entry: the graphics and the colour
    its [onUpdate] closure captured, the values of [animProps] when it is
    created, the target values and the delay handed to gsap. *)
Record Tween : Type :=
  { tw_graphics : nat;
    tw_from_start : Q; tw_from_end : Q;   (* animProps when created *)
    tw_to_start : Q; tw_to_end : Q;       (* targetProps *)
    tw_color : Z;
    tw_delay : Q }.

(** The timeline together with what its [onComplete] closure captured. *)
Record Timeline : Type :=
  { tweens : list Tween;
    newSlices : list SliceData.t;
    oldSlices : list SliceData.t }.

Record DonutChart : Type :=
  { app : Pixi;
    options : Options.t;
    slices : list SliceData.t;
    chartContainer : option nat;
    valueText : option nat;
    animating : bool;
    timeline : option Timeline }.

(** [l.map((item, index) => f index item)], counting from [i]. *)
Fixpoint mapi_from {A B : Type} (f : nat -> A -> B) (i : nat) (l : list A) : list B :=
  match l with
  | [] => []
  | x :: l' => f i x :: mapi_from f (S i) l'
  end.

Definition mapi {A B : Type} (f : nat -> A -> B) (l : list A) : list B :=
  mapi_from f 0 l.

(** [l.forEach((item, index) => ...)] with the mutated variables threaded
    through as the state [s]. *)
Fixpoint forEach_from {A St : Type} (body : St -> nat -> A -> St) (i : nat)
         (l : list A) (s : St) : St :=
  match l with
  | [] => s
  | x :: l' => forEach_from body (S i) l' (body s i x)
  end.

Definition forEach {A St : Type} (body : St -> nat -> A -> St) (l : list A)
           (s : St) : St :=
  forEach_from body 0 l s.

(** Ensure each data item has an id (constructor and [updateData]). *)
Definition ensure_ids (data : list DonutChartData.t) : list KeyedData.t :=
  mapi (fun index item =>
          KeyedData.mk (DonutChartData.value item) (DonutChartData.color item)
                       (id_or_template (DonutChartData.id item) index))
       data.

(** [data.reduce((sum, d) => sum + d.value, 0)] *)
Definition total_value (data : list KeyedData.t) : Q :=
  fold_left (fun sum d => sum + KeyedData.value d) data 0.

(** [list.find((x) => x.id === i)] *)
Definition find_data (i : Id) (data : list KeyedData.t) : option KeyedData.t :=
  find (fun d => strict_eq (KeyedData.id d) i) data.

Definition find_slice (i : Id) (l : list SliceData.t) : option SliceData.t :=
  find (fun slice => strict_eq (SliceData.id slice) i) l.

(** The variables the slice loops mutate. *)
Record Loop : Type :=
  { currentAngle : Q; pushed : list SliceData.t; world : Pixi }.

(* ----------------------------------------------------------------- *)
(** *** createChart *)

Definition createChart_body (o : Options.t) (total totalAngle : Q)
           (chartContainer : option nat) (st : Loop) (index : nat)
           (sliceData : KeyedData.t) : Loop :=
  let startAngle := currentAngle st in
  let sliceAngle := (KeyedData.value sliceData / total) * totalAngle in
  let endAngle :=
    if Z.eqb (Z.of_nat index) (Z.of_nat (List.length (Options.data o)) - 1)
    then Options.endAngle o
    else startAngle + sliceAngle in
  let midAngle := (startAngle + endAngle) / 2 in
  let (slice, w1) := new_object (world st) in
  let w2 := draw slice
                 {| arc_innerRadius := Options.innerRadius o;
                    arc_outerRadius := Options.outerRadius o;
                    arc_startAngle := startAngle; arc_endAngle := endAngle;
                    arc_color := KeyedData.color sliceData |} w1 in
  let (c, w3) := new_object w2 in
  let sliceContainer := {| handle := c; child0 := slice |} in
  let w4 := match chartContainer with
            | Some _ => chart_addChild c w3
            | None => w3
            end in
  {| currentAngle := endAngle;
     pushed := pushed st ++
               [SliceData.mk sliceContainer (KeyedData.value sliceData)
                             startAngle endAngle (KeyedData.id sliceData)];
     world := on_pointerdown slice c midAngle w4 |}.

(** [createChart], given the state the constructor has reached: the chart
    container is created and put on the stage, then one slice per item. *)
Definition createChart (ch : DonutChart) : DonutChart :=
  let o := options ch in
  let (cc, w1) := new_object (app ch) in
  let w2 := stage_addChild cc w1 in
  let total := total_value (Options.data o) in
  let totalAngle := Options.endAngle o - Options.startAngle o in
  let st := forEach (createChart_body o total totalAngle (Some cc))
                    (Options.data o)
                    {| currentAngle := Options.startAngle o;
                       pushed := slices ch; world := w2 |} in
  {| app := world st; options := o; slices := pushed st;
     chartContainer := Some cc; valueText := valueText ch;
     animating := animating ch; timeline := timeline ch |}.

Definition createEuroText (ch : DonutChart) : DonutChart :=
  let (t, w1) := new_object (app ch) in
  {| app := stage_addChild t w1; options := options ch; slices := slices ch;
     chartContainer := chartContainer ch; valueText := Some t;
     animating := animating ch; timeline := timeline ch |}.

Definition or_default (x : option Q) (d : Q) : Q :=
  match x with Some v => v | None => d end.

(** [this.options = { startAngle: -Math.PI, endAngle: 0, euroValue: 0,
    ...options }] followed by the keying of [this.options.data]. *)
Definition initial_options (o : DonutChartOptions.t) : Options.t :=
  Options.mk (ensure_ids (DonutChartOptions.data o))
             (DonutChartOptions.innerRadius o) (DonutChartOptions.outerRadius o)
             (DonutChartOptions.popDistance o)
             (DonutChartOptions.width o) (DonutChartOptions.height o)
             (or_default (DonutChartOptions.startAngle o) (- Math_PI))
             (or_default (DonutChartOptions.endAngle o) 0)
             (or_default (DonutChartOptions.euroValue o) 0).

(** The fields as the class initialisers and the first statements of the
    constructor leave them. *)
Definition initial_fields (w : Pixi) (o : DonutChartOptions.t) : DonutChart :=
  {| app := w; options := initial_options o; slices := []; chartContainer := None;
     valueText := None; animating := false; timeline := None |}.

(** [new DonutChart(app, options)] *)
Definition constructor (w : Pixi) (o : DonutChartOptions.t) : DonutChart :=
  createEuroText (createChart (initial_fields w o)).

(* ----------------------------------------------------------------- *)
(** *** updateData *)

Definition updateData_body (o : Options.t) (data : list KeyedData.t)
           (oldSlices : list SliceData.t) (totalAngle : Q) (lastIndex : Z)
           (chartContainer : option nat)
           (st : Loop) (index : nat) (item : AngleData.t) : Loop :=
  let endAngle :=
    if Z.eqb (Z.of_nat index) lastIndex
    then Options.endAngle o
    else currentAngle st + AngleData.percentage item * totalAngle in
  let sliceData := find_data (AngleData.id item) data in
  let existingSlice := find_slice (AngleData.id item) oldSlices in
  match existingSlice, sliceData with
  | Some existing, Some sd =>
      {| currentAngle := endAngle;
         pushed := pushed st ++
                   [SliceData.mk (SliceData.container existing) (KeyedData.value sd)
                                 (currentAngle st) endAngle (AngleData.id item)];
         world := world st |}
  | None, Some sd =>
      let (slice, w1) := new_object (world st) in
      let (c, w2) := new_object w1 in
      let sliceContainer := {| handle := c; child0 := slice |} in
      let w3 := match chartContainer with
                | Some _ => chart_addChild c w2
                | None => w2
                end in
      let midAngle := (currentAngle st + endAngle) / 2 in
      {| currentAngle := endAngle;
         pushed := pushed st ++
                   [SliceData.mk sliceContainer (KeyedData.value sd)
                                 (currentAngle st) endAngle (AngleData.id item)];
         world := on_pointerdown slice c midAngle w3 |}
  | _, None =>
      {| currentAngle := endAngle; pushed := pushed st; world := world st |}
  end.

(** [dataItem?.color || 0xffffff] *)
Definition color_or_white (d : option KeyedData.t) : Z :=
  match d with
  | Some x => if Z.eqb (KeyedData.color x) 0 then 16777215%Z else KeyedData.color x
  | None => 16777215%Z
  end.

Definition make_tween (data : list KeyedData.t) (oldSlices : list SliceData.t)
           (index : nat) (newSlice : SliceData.t) : Tween :=
  let oldSlice := find_slice (SliceData.id newSlice) oldSlices in
  {| tw_graphics := child0 (SliceData.container newSlice);
     tw_from_start := match oldSlice with
                      | Some s => SliceData.startAngle s
                      | None => SliceData.startAngle newSlice
                      end;
     tw_from_end := match oldSlice with
                    | Some s => SliceData.endAngle s
                    | None => SliceData.startAngle newSlice
                    end;
     tw_to_start := SliceData.startAngle newSlice;
     tw_to_end := SliceData.endAngle newSlice;
     tw_color := color_or_white (find_data (SliceData.id newSlice) data);
     tw_delay := inject_Z (Z.of_nat index) * (5 # 100) |}.

Definition angle_data (data : list KeyedData.t) (total : Q) : list AngleData.t :=
  map (fun item =>
         AngleData.mk (KeyedData.id item) (KeyedData.value item)
                      (KeyedData.color item) (KeyedData.value item / total))
      data.

(** The slice loop of [updateData]: the final loop variables. *)
Definition updateData_loop (ch : DonutChart) (data : list KeyedData.t) : Loop :=
  let o := options ch in
  let total := total_value data in
  let totalAngle := Options.endAngle o - Options.startAngle o in
  let angleData := angle_data data total in
  let lastIndex := (Z.of_nat (List.length angleData) - 1)%Z in
  forEach (updateData_body o data (slices ch) totalAngle lastIndex
                           (chartContainer ch))
          angleData
          {| currentAngle := Options.startAngle o; pushed := []; world := app ch |}.

Definition updateData (newData : list DonutChartData.t) (ch : DonutChart)
  : DonutChart :=
  if animating ch then ch
  else
    let data := ensure_ids newData in
    let oldSlices := slices ch in
    let st := updateData_loop ch data in
    let tl := {| tweens := mapi (make_tween data oldSlices) (pushed st);
                 newSlices := pushed st;
                 oldSlices := oldSlices |} in
    {| app := world st;
       options := Options.set_data data (options ch);
       slices := slices ch;
       chartContainer := chartContainer ch;
       valueText := valueText ch;
       animating := true;
       timeline := Some tl |}.

(** The [onUpdate] closure of an entry: it redraws the graphics of the entry
    with the radii of the options and the angles it reads from [animProps]. *)
Definition onUpdate (o : Options.t) (tw : Tween) (startAngle endAngle : Q)
           (w : Pixi) : Pixi :=
  draw (tw_graphics tw)
       {| arc_innerRadius := Options.innerRadius o;
          arc_outerRadius := Options.outerRadius o;
          arc_startAngle := startAngle;
          arc_endAngle := endAngle;
          arc_color := tw_color tw |}
       w.

(** A call of [onUpdate] by gsap: the position of the entry on the timeline
    and the values gsap has written to its [animProps]. *)
Record Update : Type :=
  { up_entry : nat;
    up_startAngle : Q;
    up_endAngle : Q }.

(** What gsap does between two animation frames is a parameter: the calls
    of [onUpdate] it makes, in the order it makes them.  Nothing is assumed
    on which entries it runs, nor on the values it gives them. *)
Definition Frame : Type := list Update.

Definition tween_frame (o : Options.t) (entries : list Tween)
           (w : Pixi) (u : Update) : Pixi :=
  match nth_error entries (up_entry u) with
  | Some tw => onUpdate o tw (up_startAngle u) (up_endAngle u) w
  | None => w
  end.

(** One frame of the running timeline. *)
Definition tick (frame : Frame) (ch : DonutChart) : DonutChart :=
  match timeline ch with
  | None => ch
  | Some tl =>
      {| app := fold_left (tween_frame (options ch) (tweens tl)) frame (app ch);
         options := options ch; slices := slices ch;
         chartContainer := chartContainer ch; valueText := valueText ch;
         animating := animating ch; timeline := timeline ch |}
  end.

Definition ticks (frames : list Frame) (ch : DonutChart) : DonutChart :=
  fold_left (fun c frame => tick frame c) frames ch.

(** The [onComplete] callback of the timeline. *)
Definition onComplete_body (newSlices : list SliceData.t) (w : Pixi)
           (_ : nat) (oldSlice : SliceData.t) : Pixi :=
  match find_slice (SliceData.id oldSlice) newSlices with
  | None => chart_removeChild (handle (SliceData.container oldSlice)) w
  | Some _ => w
  end.

Definition onComplete (ch : DonutChart) : DonutChart :=
  match timeline ch with
  | None => ch
  | Some tl =>
      {| app := forEach (onComplete_body (newSlices tl)) (oldSlices tl) (app ch);
         options := options ch;
         slices := newSlices tl;
         chartContainer := chartContainer ch; valueText := valueText ch;
         animating := false;
         timeline := None |}
  end.

(* ================================================================= *)
(** ** drawDonutSlice: the polygon of an annulus segment *)

(** Coordinates and angles of the polygon are binary64 numbers. *)
Record Point : Type := { x : float; y : float }.

(** What the [Graphics] receives: [beginFill(color)], [moveTo] the first
    point, [lineTo] each of the others, [closePath]. *)
Record Shape : Type := { fill : Z; moveTo : Point; lineTo : list Point }.

(** How a call ends: normally, or by the [TypeError] of reading [.x] of
    [undefined]. *)
Inductive Completion (A : Type) : Type :=
| Normal (a : A)
| TypeError.
Arguments Normal {A} a.
Arguments TypeError {A}.

Section Geometry.

(** [Math.cos] and [Math.sin] of the host. *)
Variables Math_cos Math_sin : float -> float.

Definition polar (radius angle : float) : Point :=
  {| x := (Math_cos angle * radius)%float; y := (Math_sin angle * radius)%float |}.

(** [for (let angle = startAngle; angle <= endAngle; angle += precision)]:
    [fuel] bounds the number of times the condition is evaluated; [None]
    when it is exhausted. *)
Fixpoint outer_arc (fuel : nat) (precision outerRadius endAngle angle : float)
         (points : list Point) : option (list Point) :=
  match fuel with
  | O => None
  | S fuel' =>
      if (angle <=? endAngle)%float
      then outer_arc fuel' precision outerRadius endAngle (angle + precision)%float
                     (points ++ [polar outerRadius angle])
      else Some points
  end.

(** [for (let angle = endAngle; angle >= startAngle; angle -= precision)] *)
Fixpoint inner_arc (fuel : nat) (precision innerRadius startAngle angle : float)
         (points : list Point) : option (list Point) :=
  match fuel with
  | O => None
  | S fuel' =>
      if (startAngle <=? angle)%float
      then inner_arc fuel' precision innerRadius startAngle (angle - precision)%float
                     (points ++ [polar innerRadius angle])
      else Some points
  end.

(** The point list built for a given step. *)
Definition arc_points (fuel : nat) (precision innerRadius outerRadius
                                    startAngle endAngle : float)
  : option (list Point) :=
  match outer_arc fuel precision outerRadius endAngle startAngle [] with
  | None => None
  | Some outer =>
      let points := outer ++ [polar outerRadius endAngle] in
      match inner_arc fuel precision innerRadius startAngle endAngle points with
      | None => None
      | Some both => Some (both ++ [polar innerRadius startAngle])
      end
  end.

(** The literal [0.03]: the binary64 number nearest to it. *)
Definition precision : float := 0x1.eb851eb851eb8p-6%float.

Definition drawDonutSlice (fuel : nat) (innerRadius outerRadius
                                        startAngle endAngle : float) (color : Z)
  : option (Completion Shape) :=
  match arc_points fuel precision innerRadius outerRadius startAngle endAngle with
  | None => None
  | Some [] => Some TypeError
  | Some (p0 :: rest) =>
      Some (Normal {| fill := color; moveTo := p0; lineTo := rest |})
  end.

End Geometry.

(** Areas are taken over the rationals: [val] gives the value of a
    coordinate. *)
Definition cross (val : float -> Q) (p q : Point) : Q :=
  val (x p) * val (y q) - val (x q) * val (y p).

Fixpoint shoelace_from (val : float -> Q) (first p : Point) (rest : list Point) : Q :=
  match rest with
  | [] => cross val p first
  | q :: rest' => cross val p q + shoelace_from val first q rest'
  end.

(** Twice the signed area enclosed by the closed path. *)
Definition twice_area (val : float -> Q) (s : Shape) : Q :=
  shoelace_from val (moveTo s) (moveTo s) (lineTo s).

(** The step moves the angle [a]: [a] is a number (not [NaN]), [a + step]
    is above it and [a - step] below it. *)
Definition step_moves (step a : float) : bool :=
  (a <=? a)%float && negb (a + step <=? a)%float && negb (a <=? a - step)%float.

(** 2^48, where adding 0.03 is lost to rounding. *)
Definition two_pow_48 : float := 281474976710656%float.

(* ================================================================= *)
(** ** Concrete charts used in examples *)

Definition empty_stage : Pixi :=
  {| fresh := 0; stage := []; chartChildren := []; drawn := []; pointerdown := [] |}.

Definition page_options (d : list DonutChartData.t) : DonutChartOptions.t :=
  DonutChartOptions.mk d 100 160 15 600 350 (Some (- Math_PI)) (Some 0) (Some 5000000).

Definition scenario_data : list DonutChartData.t :=
  [ DonutChartData.mk 30 5195493 (Some (IdStr "a"));
    DonutChartData.mk 70 9133302 (Some (IdStr "b")) ].

Definition scenario_chart : DonutChart :=
  constructor empty_stage (page_options scenario_data).

(** [initialChartData] of the page. *)
Definition initialChartData : list DonutChartData.t :=
  [ DonutChartData.mk 30 5195493 (Some (IdStr "segment1"));
    DonutChartData.mk 50 9133302 (Some (IdStr "segment2"));
    DonutChartData.mk 70 10980346 (Some (IdStr "segment3"));
    DonutChartData.mk 40 12891645 (Some (IdStr "segment4")) ].

Definition page_chart : DonutChart :=
  constructor empty_stage (page_options initialChartData).

(** A dataset whose total is zero. *)
Definition zero_data : list DonutChartData.t :=
  [ DonutChartData.mk 0 5195493 (Some (IdStr "a")) ].



(** A frame in which gsap runs the first two entries of the timeline. *)
Definition sample_frame : Frame :=
  [ {| up_entry := 0; up_startAngle := - Math_PI;
       up_endAngle := - (3 # 4) * Math_PI |};
    {| up_entry := 1; up_startAngle := - (3 # 4) * Math_PI;
       up_endAngle := - (1 # 4) * Math_PI |} ].

(* ================================================================= *)
(** ** Vocabulary of the properties *)

Definition seg_bounds (s : SliceData.t) : Q * Q :=
  (SliceData.startAngle s, SliceData.endAngle s).

(** Summary of the boundary arithmetic shared by the two slice loops: from
    the running angle [currentAngle] and the shares still to place, the
    pairs (start, end) the loop assigns from index [i] on. *)
Fixpoint bounds_from (endAngle totalAngle : Q) (lastIndex : Z) (i : nat)
         (currentAngle : Q) (shares : list Q) : list (Q * Q) :=
  match shares with
  | [] => []
  | p :: rest =>
      let e := if Z.eqb (Z.of_nat i) lastIndex then endAngle
               else currentAngle + p * totalAngle in
      (currentAngle, e) :: bounds_from endAngle totalAngle lastIndex (S i) e rest
  end.

Definition sumQ (l : list Q) : Q := fold_right Qplus 0 l.

(** Consecutive segments share their boundary, as the same number. *)
Definition contiguous (segs : list SliceData.t) : Prop :=
  forall k s s',
    nth_error segs k = Some s -> nth_error segs (S k) = Some s' ->
    SliceData.endAngle s = SliceData.startAngle s'.

Definition span (s : SliceData.t) : Q :=
  SliceData.endAngle s - SliceData.startAngle s.

Definition sum_spans (segs : list SliceData.t) : Q := sumQ (map span segs).


(** The registry [l] is sound for the surface [w]: its containers have been
    allocated, and entries that hold the same container have the same id. *)
Definition registry_ok (w : Pixi) (l : list SliceData.t) : Prop :=
  (forall t, In t l -> (handle (SliceData.container t) < fresh w)%nat)
  /\ (forall t1 t2,
         In t1 l -> In t2 l ->
         handle (SliceData.container t1) = handle (SliceData.container t2) ->
         strict_eq (SliceData.id t1) (SliceData.id t2) = true).

(** Well-formed charts: the stored registry is sound, and so is the one a
    running timeline is about to commit. *)
Definition wf (ch : DonutChart) : Prop :=
  registry_ok (app ch) (slices ch)
  /\ (forall tl, timeline ch = Some tl -> registry_ok (app ch) (newSlices tl)).

(** The charts a program can hold: built by the constructor, then driven by
    calls of [updateData], frames of the timeline and its completion. *)
Inductive reachable : DonutChart -> Prop :=
| reachable_constructor (w : Pixi) (o : DonutChartOptions.t) :
    reachable (constructor w o)
| reachable_updateData (newData : list DonutChartData.t) (ch : DonutChart) :
    reachable ch -> reachable (updateData newData ch)
| reachable_tick (frame : Frame) (ch : DonutChart) :
    reachable ch -> reachable (tick frame ch)
| reachable_onComplete (ch : DonutChart) :
    reachable ch -> reachable (onComplete ch).

(** What the slice loop of [updateData] maintains about the slices pushed so
    far, given the handles below [f0] that the old registry [old] may use. *)
Definition loop_inv (f0 : nat) (old : list SliceData.t) (st : Loop) : Prop :=
  (f0 <= fresh (world st))%nat
  /\ registry_ok (world st) (pushed st)
  /\ (forall t ex,
         In t (pushed st) -> In ex old ->
         handle (SliceData.container t) = handle (SliceData.container ex) ->
         strict_eq (SliceData.id t) (SliceData.id ex) = true).

(* ================================================================= *)
(** ** The rest of the class and its caller *)

(** A keyed item handed back as input: the same fields, the id present. *)
Definition unkey (d : KeyedData.t) : DonutChartData.t :=
  DonutChartData.mk (KeyedData.value d) (KeyedData.color d) (Some (KeyedData.id d)).

(** The listener [createChart] and [updateData] give to the graphics of a
    new slice: its container and the middle of its angles. *)
Definition listener_of (s : SliceData.t) : nat * (nat * Q) :=
  (child0 (SliceData.container s),
   (handle (SliceData.container s),
    (SliceData.startAngle s + SliceData.endAngle s) / 2)).

(** The drawing of a slice in the colour of its data item. *)
Definition drawing_of (o : Options.t) (sd : SliceData.t * KeyedData.t) : nat * Arc :=
  (child0 (SliceData.container (fst sd)),
   {| arc_innerRadius := Options.innerRadius o;
      arc_outerRadius := Options.outerRadius o;
      arc_startAngle := SliceData.startAngle (fst sd);
      arc_endAngle := SliceData.endAngle (fst sd);
      arc_color := KeyedData.color (snd sd) |}).

(** An id is new when no slice of the registry answers to it. *)
Definition is_new (old : list SliceData.t) (i : Id) : bool :=
  match find_slice i old with
  | None => true
  | Some _ => false
  end.

(** The number of items of [data] whose id is new. *)
Definition count_new (old : list SliceData.t) (data : list KeyedData.t) : nat :=
  List.length (filter (fun d => is_new old (KeyedData.id d)) data).

(** No two positions of [data] hold ids that are [===]. *)
Definition distinct_ids (data : list KeyedData.t) : Prop :=
  forall j k a b,
    nth_error data j = Some a -> nth_error data k = Some b ->
    strict_eq (KeyedData.id a) (KeyedData.id b) = true -> j = k.

(** The flag, the timeline and the stored data agree: the chart is busy
    exactly while a timeline awaits completion; at rest the registry lists
    the ids of the stored data; a pending timeline remembers the registry it
    started from and is about to commit the ids of the stored data. *)
Definition lifecycle_ok (ch : DonutChart) : Prop :=
  (animating ch = true <-> timeline ch <> None)
  /\ (timeline ch = None ->
      map SliceData.id (slices ch) = map KeyedData.id (Options.data (options ch)))
  /\ (forall tl,
         timeline ch = Some tl ->
         oldSlices tl = slices ch
         /\ map SliceData.id (newSlices tl)
            = map KeyedData.id (Options.data (options ch))
         /\ List.length (tweens tl) = List.length (newSlices tl)).

(** The registry is on the surface: there is a chart container, every
    registered slice is attached to it, and so is every slice a pending
    timeline is about to commit, which shares a container with an old slice
    only when it has the same id. *)
Definition scene_ok (ch : DonutChart) : Prop :=
  chartContainer ch <> None
  /\ (forall t, In t (slices ch) -> attached (SliceData.container t) (app ch))
  /\ (forall tl,
         timeline ch = Some tl ->
         oldSlices tl = slices ch
         /\ (forall t, In t (newSlices tl) ->
                       attached (SliceData.container t) (app ch))
         /\ (forall t ex,
                In t (newSlices tl) -> In ex (slices ch) ->
                handle (SliceData.container t) = handle (SliceData.container ex) ->
                strict_eq (SliceData.id t) (SliceData.id ex) = true)).

(* ----------------------------------------------------------------- *)
(** *** destroy *)

(** [graphic.removeAllListeners()] *)
Definition removeAllListeners (g : nat) (w : Pixi) : Pixi :=
  {| fresh := fresh w; stage := stage w; chartChildren := chartChildren w;
     drawn := drawn w;
     pointerdown := filter (fun l => negb (Nat.eqb (fst l) g)) (pointerdown w) |}.

(** The body of the loop of [removeEventListeners]: the graphics is the
    first child of the slice container, which every slice container has. *)
Definition removeEventListeners_body (w : Pixi) (_ : nat) (slice : SliceData.t)
  : Pixi :=
  removeAllListeners (child0 (SliceData.container slice)) w.

Definition removeEventListeners (ch : DonutChart) : DonutChart :=
  {| app := forEach removeEventListeners_body (slices ch) (app ch);
     options := options ch; slices := slices ch;
     chartContainer := chartContainer ch; valueText := valueText ch;
     animating := animating ch; timeline := timeline ch |}.

Definition destroy (ch : DonutChart) : DonutChart :=
  let ch1 := removeEventListeners ch in
  {| app := app ch1; options := options ch1; slices := [];
     chartContainer := None; valueText := None;
     animating := animating ch1; timeline := timeline ch1 |}.

(* ----------------------------------------------------------------- *)
(** *** The page *)

(** [generateRandomData]: every item keeps its fields and gets the value
    [Math.random() * 30]; [Math_random k] is the number the k-th call returns. *)
Definition generateRandomData (Math_random : nat -> Q)
           (baseData : list DonutChartData.t) : list DonutChartData.t :=
  mapi (fun k item =>
          DonutChartData.mk (Math_random k * 30) (DonutChartData.color item)
                            (DonutChartData.id item))
       baseData.

(** The page: its [chartData] state and the chart it holds. *)
Record Page : Type := { chartData : list DonutChartData.t; chart : DonutChart }.

(** The runs of the page: the chart is constructed on an application stage
    from the initial data; each interval replaces [chartData] by random data
    and the effect hands it to [updateData]; in between, the timeline of the
    chart plays frames and completes. *)
Inductive page_run (w : Pixi) (base : list DonutChartData.t) : Page -> Prop :=
| page_start :
    page_run w base {| chartData := base;
                       chart := constructor w (page_options base) |}
| page_interval (Math_random : nat -> Q) (pg : Page) :
    page_run w base pg ->
    page_run w base
             {| chartData := generateRandomData Math_random (chartData pg);
                chart := updateData (generateRandomData Math_random (chartData pg))
                                    (chart pg) |}
| page_frame (frame : Frame) (pg : Page) :
    page_run w base pg ->
    page_run w base {| chartData := chartData pg; chart := tick frame (chart pg) |}
| page_complete (pg : Page) :
    page_run w base pg ->
    page_run w base {| chartData := chartData pg; chart := onComplete (chart pg) |}.

(** What every state of a page run keeps of the chart as constructed:
    the raw ids of [chartData], the ids of the registry (also of the one a
    pending timeline will commit), and the objects, children and listeners
    of the surface. *)
Definition page_inv (w : Pixi) (base : list DonutChartData.t) (pg : Page) : Prop :=
  let ch := chart pg in
  let ch0 := constructor w (page_options base) in
  map DonutChartData.id (chartData pg) = map DonutChartData.id base
  /\ map SliceData.id (slices ch) = map KeyedData.id (ensure_ids base)
  /\ (forall tl,
         timeline ch = Some tl ->
         oldSlices tl = slices ch
         /\ map SliceData.id (newSlices tl) = map KeyedData.id (ensure_ids base))
  /\ fresh (app ch) = fresh (app ch0)
  /\ stage (app ch) = stage (app ch0)
  /\ chartChildren (app ch) = chartChildren (app ch0)
  /\ pointerdown (app ch) = pointerdown (app ch0).

(* ================================================================= *)
(** ** Strict equality of identifiers *)

Lemma strict_eq_refl (a : Id) : strict_eq a a = true.
Proof.
  destruct a as [n|s]; simpl.
  - apply Qeq_bool_iff. reflexivity.
  - apply String.eqb_refl.
Qed.

Lemma strict_eq_sym (a b : Id) : strict_eq a b = strict_eq b a.
Proof.
  destruct a as [n|s], b as [m|t]; simpl; try reflexivity.
  - apply Qeq_bool_comm.
  - apply String.eqb_sym.
Qed.

Lemma strict_eq_trans (a b c : Id) :
  strict_eq a b = true -> strict_eq b c = true -> strict_eq a c = true.
Proof.
  destruct a as [n|s], b as [m|t], c as [k|u]; simpl; try discriminate.
  - intros H1 H2. apply Qeq_bool_iff. apply Qeq_bool_iff in H1, H2.
    now rewrite H1.
  - intros H1 H2. apply String.eqb_eq in H1, H2. subst. apply String.eqb_refl.
Qed.

(** Two identifiers that are [===] select the same entries. *)
Lemma strict_eq_congr (a b c : Id) :
  strict_eq a b = true -> strict_eq c a = strict_eq c b.
Proof.
  intros Hab.
  destruct (strict_eq c a) eqn:Hca.
  - symmetry. eapply strict_eq_trans; eassumption.
  - destruct (strict_eq c b) eqn:Hcb; [|reflexivity].
    rewrite <- Hca. eapply strict_eq_trans; [eassumption|].
    now rewrite strict_eq_sym.
Qed.

Lemma find_pointwise {A : Type} (f g : A -> bool) (l : list A) :
  (forall a, f a = g a) -> find f l = find g l.
Proof.
  intros Hfg. induction l as [|a l IH]; simpl; [reflexivity|].
  now rewrite Hfg, IH.
Qed.

Lemma find_slice_congr (a b : Id) (l : list SliceData.t) :
  strict_eq a b = true -> find_slice a l = find_slice b l.
Proof.
  intros Hab. unfold find_slice. apply find_pointwise.
  intros s. now apply strict_eq_congr.
Qed.

Lemma find_data_congr (a b : Id) (l : list KeyedData.t) :
  strict_eq a b = true -> find_data a l = find_data b l.
Proof.
  intros Hab. unfold find_data. apply find_pointwise.
  intros s. now apply strict_eq_congr.
Qed.

Lemma find_slice_id (i : Id) (l : list SliceData.t) (s : SliceData.t) :
  find_slice i l = Some s -> In s l /\ strict_eq (SliceData.id s) i = true.
Proof. apply find_some. Qed.

Lemma find_data_id (i : Id) (l : list KeyedData.t) (d : KeyedData.t) :
  find_data i l = Some d -> In d l /\ strict_eq (KeyedData.id d) i = true.
Proof. apply find_some. Qed.

(** An item of the list is found under its own id (possibly as an earlier
    item with the same id). *)
Lemma find_data_In (d : KeyedData.t) (l : list KeyedData.t) :
  In d l -> find_data (KeyedData.id d) l <> None.
Proof.
  intros Hin Hnone. unfold find_data in Hnone.
  pose proof (find_none _ _ Hnone d Hin) as H. simpl in H.
  now rewrite strict_eq_refl in H.
Qed.

(* ================================================================= *)
(** ** Indexed maps and loops *)

Lemma mapi_from_length {A B : Type} (f : nat -> A -> B) (l : list A) :
  forall i, List.length (mapi_from f i l) = List.length l.
Proof. induction l as [|a l IH]; intros i; simpl; [reflexivity|now rewrite IH]. Qed.

Lemma mapi_from_nth_error {A B : Type} (f : nat -> A -> B) (l : list A) :
  forall i k, nth_error (mapi_from f i l) k = option_map (f (i + k)%nat) (nth_error l k).
Proof.
  induction l as [|a l IH]; intros i k.
  - now destruct k.
  - destruct k as [|k]; simpl.
    + now rewrite Nat.add_0_r.
    + rewrite IH. now rewrite Nat.add_succ_r.
Qed.

Lemma mapi_nth_error {A B : Type} (f : nat -> A -> B) (l : list A) (k : nat) :
  nth_error (mapi f l) k = option_map (f k) (nth_error l k).
Proof. unfold mapi. now rewrite mapi_from_nth_error. Qed.

Lemma ensure_ids_length (data : list DonutChartData.t) :
  List.length (ensure_ids data) = List.length data.
Proof. apply mapi_from_length. Qed.



(* ================================================================= *)
(** ** The boundary arithmetic *)

Section Bounds.

Variables (endAngle totalAngle : Q) (lastIndex : Z).

Local Abbreviation bounds := (bounds_from endAngle totalAngle lastIndex).


Lemma bounds_from_first (shares : list Q) (i : nat) (cur s e : Q) :
  nth_error (bounds i cur shares) 0 = Some (s, e) -> s = cur.
Proof. destruct shares; simpl; [discriminate|]. now intros [= -> _]. Qed.

Lemma bounds_from_contiguous (shares : list Q) :
  forall i cur k s e s' e',
    nth_error (bounds i cur shares) k = Some (s, e) ->
    nth_error (bounds i cur shares) (S k) = Some (s', e') ->
    e = s'.
Proof.
  induction shares as [|p rest IH]; intros i cur k s e s' e' Hk HSk.
  - destruct k; discriminate.
  - destruct k as [|k]; simpl in Hk, HSk.
    + injection Hk as _ <-. symmetry. eapply bounds_from_first. exact HSk.
    + eapply IH; eassumption.
Qed.




End Bounds.



(* ================================================================= *)
(** ** The slice loop of updateData *)

Section UpdateLoop.

Variables (o : Options.t) (data : list KeyedData.t) (old : list SliceData.t)
          (totalAngle : Q) (lastIndex : Z) (cc : option nat).

Local Abbreviation body := (updateData_body o data old totalAngle lastIndex cc).

Local Abbreviation end_of st index item :=
  (if Z.eqb (Z.of_nat index) lastIndex then Options.endAngle o
   else currentAngle st + AngleData.percentage item * totalAngle).

(** One iteration on an item whose id is among [data]: exactly one slice
    is pushed; it reuses the container of the old slice with that id when
    there is one and takes two fresh objects otherwise. *)
Lemma updateData_body_step (st : Loop) (index : nat) (item : AngleData.t)
      (sd : KeyedData.t) :
  find_data (AngleData.id item) data = Some sd ->
  exists c w,
    body st index item
    = {| currentAngle := end_of st index item;
         pushed := pushed st ++
                   [SliceData.mk c (KeyedData.value sd) (currentAngle st)
                                 (end_of st index item) (AngleData.id item)];
         world := w |}
    /\ (forall ex, find_slice (AngleData.id item) old = Some ex ->
                   c = SliceData.container ex /\ w = world st)
    /\ (find_slice (AngleData.id item) old = None ->
        handle c = S (fresh (world st))
        /\ fresh w = S (S (fresh (world st)))
        /\ stage w = stage (world st)
        /\ chartChildren w
           = match cc with
             | Some _ => chartChildren (world st) ++ [handle c]
             | None => chartChildren (world st)
             end).
Proof.
  intros Hsd. unfold updateData_body. rewrite Hsd.
  destruct (find_slice (AngleData.id item) old) as [ex|] eqn:Hex.
  - exists (SliceData.container ex), (world st). split; [reflexivity|].
    split; [|discriminate]. intros ex' [= <-]. now split.
  - simpl. eexists. eexists. split; [reflexivity|].
    split; [discriminate|]. intros _. destruct cc; simpl; repeat split; reflexivity.
Qed.

(** The loop pushes one slice per item, with the boundaries of
    [bounds_from], the items' ids and the values looked up by id. *)
Lemma updateData_loop_pushed (l : list AngleData.t) :
  forall i st,
    (forall it, In it l -> find_data (AngleData.id it) data <> None) ->
    let st' := forEach_from body i l st in
    map seg_bounds (pushed st')
    = map seg_bounds (pushed st)
          ++ bounds_from (Options.endAngle o) totalAngle lastIndex i
                         (currentAngle st) (map AngleData.percentage l)
    /\ map SliceData.id (pushed st')
       = map SliceData.id (pushed st) ++ map AngleData.id l
    /\ map SliceData.value (pushed st')
       = map SliceData.value (pushed st)
             ++ map (fun it => match find_data (AngleData.id it) data with
                               | Some d => KeyedData.value d
                               | None => 0
                               end) l.
Proof.
  induction l as [|it l IH]; intros i st Hfound; simpl.
  - now rewrite !app_nil_r.
  - destruct (find_data (AngleData.id it) data) as [sd|] eqn:Hsd;
      [|exfalso; apply (Hfound it); [now left|assumption]].
    destruct (updateData_body_step st i it sd Hsd) as (c & w & Hstep & _).
    rewrite Hstep.
    destruct (IH (S i)
                 {| currentAngle := end_of st i it;
                    pushed := pushed st ++
                              [SliceData.mk c (KeyedData.value sd) (currentAngle st)
                                            (end_of st i it) (AngleData.id it)];
                    world := w |})
      as (Hb & Hi & Hv).
    { intros it' Hin. apply Hfound. now right. }
    simpl in Hb, Hi, Hv. rewrite Hb, Hi, Hv.
    rewrite !map_app. simpl. rewrite <- !app_assoc. simpl.
    repeat split; reflexivity.
Qed.

End UpdateLoop.

(* ================================================================= *)
(** ** The slice loop of createChart *)

Section CreateLoop.

Variables (o : Options.t) (total totalAngle : Q) (cc : option nat).

Local Abbreviation body := (createChart_body o total totalAngle cc).

Lemma createChart_loop_pushed (l : list KeyedData.t) :
  forall i st,
    let st' := forEach_from body i l st in
    map seg_bounds (pushed st')
    = map seg_bounds (pushed st)
          ++ bounds_from (Options.endAngle o) totalAngle
                         (Z.of_nat (List.length (Options.data o)) - 1) i
                         (currentAngle st)
                         (map (fun d => KeyedData.value d / total) l)
    /\ map SliceData.id (pushed st')
       = map SliceData.id (pushed st) ++ map KeyedData.id l
    /\ map SliceData.value (pushed st')
       = map SliceData.value (pushed st) ++ map KeyedData.value l.
Proof.
  induction l as [|d l IH]; intros i st; simpl.
  - now rewrite !app_nil_r.
  - destruct (IH (S i) (body st i d)) as (Hb & Hi & Hv).
    rewrite Hb, Hi, Hv.
    unfold createChart_body. simpl.
    rewrite !map_app. simpl. rewrite <- !app_assoc. simpl.
    repeat split; reflexivity.
Qed.


End CreateLoop.

(* ================================================================= *)
(** ** From the boundary summary to the partition *)



(* ================================================================= *)
(** ** What updateData and the constructor leave behind *)

Lemma updateData_idle (newData : list DonutChartData.t) (ch : DonutChart) :
  animating ch = false ->
  updateData newData ch
  = let data := ensure_ids newData in
    let st := updateData_loop ch data in
    {| app := world st;
       options := Options.set_data data (options ch);
       slices := slices ch;
       chartContainer := chartContainer ch;
       valueText := valueText ch;
       animating := true;
       timeline := Some {| tweens := mapi (make_tween data (slices ch)) (pushed st);
                           newSlices := pushed st;
                           oldSlices := slices ch |} |}.
Proof. intros Hidle. unfold updateData. now rewrite Hidle. Qed.

Lemma updateData_commit_slices (newData : list DonutChartData.t) (ch : DonutChart) :
  animating ch = false ->
  slices (onComplete (updateData newData ch))
  = pushed (updateData_loop ch (ensure_ids newData)).
Proof. intros Hidle. now rewrite updateData_idle. Qed.

Lemma updateData_commit_options (newData : list DonutChartData.t) (ch : DonutChart) :
  animating ch = false ->
  options (onComplete (updateData newData ch))
  = Options.set_data (ensure_ids newData) (options ch).
Proof. intros Hidle. now rewrite updateData_idle. Qed.

Lemma angle_data_found (data : list KeyedData.t) (total : Q) (it : AngleData.t) :
  In it (angle_data data total) -> find_data (AngleData.id it) data <> None.
Proof.
  unfold angle_data. intros Hin. apply in_map_iff in Hin.
  destruct Hin as (d & <- & Hd). simpl. now apply find_data_In.
Qed.

(** The three lists the loop of [updateData] determines. *)
Lemma updateData_loop_summary (ch : DonutChart) (data : list KeyedData.t) :
  let o := options ch in
  let segs := pushed (updateData_loop ch data) in
  map seg_bounds segs
  = bounds_from (Options.endAngle o) (Options.endAngle o - Options.startAngle o)
                (Z.of_nat (List.length data) - 1) 0 (Options.startAngle o)
                (map (fun d => KeyedData.value d / total_value data) data)
  /\ map SliceData.id segs = map KeyedData.id data
  /\ map SliceData.value segs
     = map (fun d => match find_data (KeyedData.id d) data with
                     | Some d0 => KeyedData.value d0
                     | None => 0
                     end) data.
Proof.
  intros o segs. subst o segs. unfold updateData_loop, forEach.
  match goal with
  | |- context [forEach_from (updateData_body ?o' ?d ?old ?T ?last ?c) 0 ?l ?st] =>
      destruct (updateData_loop_pushed o' d old T last c l 0 st)
        as (Hb & Hi & Hv)
  end.
  { intros it. apply angle_data_found. }
  simpl in Hb, Hi, Hv.
  rewrite Hb, Hi, Hv. unfold angle_data.
  rewrite !map_map, length_map. simpl. repeat split; reflexivity.
Qed.


Lemma createChart_summary (ch : DonutChart) :
  slices ch = [] ->
  let o := options ch in
  let data := Options.data o in
  options (createChart ch) = o
  /\ map seg_bounds (slices (createChart ch))
     = bounds_from (Options.endAngle o) (Options.endAngle o - Options.startAngle o)
                   (Z.of_nat (List.length data) - 1) 0 (Options.startAngle o)
                   (map (fun d => KeyedData.value d / total_value data) data)
  /\ map SliceData.id (slices (createChart ch)) = map KeyedData.id data
  /\ map SliceData.value (slices (createChart ch)) = map KeyedData.value data.
Proof.
  intros Hempty o data. subst o data. split; [reflexivity|].
  unfold createChart, forEach.
  destruct (new_object (app ch)) as [cc w1]. cbn [slices]. rewrite Hempty.
  match goal with
  | |- context [forEach_from (createChart_body ?o' ?t ?T ?c) 0 ?l ?st] =>
      destruct (createChart_loop_pushed o' t T c l 0 st) as (Hb & Hi & Hv)
  end.
  cbn [currentAngle pushed map app] in Hb, Hi, Hv.
  rewrite Hb, Hi, Hv. repeat split; reflexivity.
Qed.

Lemma constructor_options (w : Pixi) (o : DonutChartOptions.t) :
  options (constructor w o) = initial_options o.
Proof. reflexivity. Qed.

Lemma constructor_slices (w : Pixi) (o : DonutChartOptions.t) :
  slices (constructor w o) = slices (createChart (initial_fields w o)).
Proof. reflexivity. Qed.

Lemma constructor_summary (w : Pixi) (o : DonutChartOptions.t) :
  let ch := constructor w o in
  let data := Options.data (options ch) in
  map seg_bounds (slices ch)
  = bounds_from (Options.endAngle (options ch))
                (Options.endAngle (options ch) - Options.startAngle (options ch))
                (Z.of_nat (List.length data) - 1) 0 (Options.startAngle (options ch))
                (map (fun d => KeyedData.value d / total_value data) data)
  /\ map SliceData.id (slices ch) = map KeyedData.id data
  /\ map SliceData.value (slices ch) = map KeyedData.value data.
Proof.
  intros ch data. subst ch data.
  rewrite constructor_options, constructor_slices.
  destruct (createChart_summary (initial_fields w o) eq_refl) as (_ & Hb & Hi & Hv).
  exact (conj Hb (conj Hi Hv)).
Qed.


(* ================================================================= *)
(** ** Spans telescope *)

Lemma bounds_from_telescope (endAngle totalAngle : Q) (lastIndex : Z)
      (shares : list Q) :
  forall i cur,
    shares <> [] ->
    (Z.of_nat (i + List.length shares) - 1 = lastIndex)%Z ->
    sumQ (map (fun b => snd b - fst b)
              (bounds_from endAngle totalAngle lastIndex i cur shares))
    == endAngle - cur.
Proof.
  induction shares as [|p rest IH]; intros i cur Hne Hlast; [congruence|].
  destruct rest as [|q rest].
  - simpl in *. replace (Z.eqb (Z.of_nat i) lastIndex) with true
      by (symmetry; apply Z.eqb_eq; lia).
    simpl. ring.
  - assert (Hi : Z.eqb (Z.of_nat i) lastIndex = false).
    { apply Z.eqb_neq. simpl in Hlast. lia. }
    pose proof (IH (S i) (cur + p * totalAngle)) as IH'.
    change (bounds_from endAngle totalAngle lastIndex i cur (p :: q :: rest))
      with ((cur, if Z.eqb (Z.of_nat i) lastIndex then endAngle
                  else cur + p * totalAngle)
              :: bounds_from endAngle totalAngle lastIndex (S i)
                   (if Z.eqb (Z.of_nat i) lastIndex then endAngle
                    else cur + p * totalAngle) (q :: rest)).
    rewrite Hi.
    set (tail := bounds_from endAngle totalAngle lastIndex (S i)
                             (cur + p * totalAngle) (q :: rest)) in *.
    change (sumQ (map (fun b => snd b - fst b) ((cur, cur + p * totalAngle) :: tail)))
      with ((cur + p * totalAngle - cur) + sumQ (map (fun b => snd b - fst b) tail)).
    rewrite IH'; [ring|discriminate|].
    rewrite <- Hlast. cbn [List.length]. lia.
Qed.

Lemma sum_spans_bounds (segs : list SliceData.t) :
  sum_spans segs = sumQ (map (fun b => snd b - fst b) (map seg_bounds segs)).
Proof. unfold sum_spans. now rewrite map_map. Qed.

(** For a dataset that is not empty the spans add up to the range. *)
Lemma updateData_loop_sum_spans (ch : DonutChart) (data : list KeyedData.t) :
  data <> [] ->
  sum_spans (pushed (updateData_loop ch data))
  == Options.endAngle (options ch) - Options.startAngle (options ch).
Proof.
  intros Hne. destruct (updateData_loop_summary ch data) as (Hb & _).
  rewrite sum_spans_bounds, Hb.
  apply bounds_from_telescope.
  - destruct data; [congruence|discriminate].
  - rewrite length_map. simpl. reflexivity.
Qed.

Lemma updateData_loop_contiguous (ch : DonutChart) (data : list KeyedData.t) :
  contiguous (pushed (updateData_loop ch data)).
Proof.
  destruct (updateData_loop_summary ch data) as (Hb & _).
  intros k s s' Hs Hs'.
  apply (map_nth_error seg_bounds) in Hs, Hs'. rewrite Hb in Hs, Hs'.
  eapply bounds_from_contiguous; eassumption.
Qed.

Lemma positive_total_nonempty (data : list KeyedData.t) :
  0 < total_value data -> data <> [].
Proof. intros Hpos ->. unfold total_value in Hpos. simpl in Hpos. discriminate. Qed.


(* ================================================================= *)
(** ** Angle allocation *)



(** C2, as stated.  An update with no item is accepted like any other.
    Once it has committed, the chart is idle and the registry is empty: the
    spans add up to 0, while the range from [-Math.PI] to 0 of the
    configuration has the width [Math.PI]. *)
Lemma empty_update_does_not_cover :
  let ch' := onComplete (updateData [] page_chart) in
  let range := Options.endAngle (options ch') - Options.startAngle (options ch') in
  animating page_chart = false
  /\ animating (updateData [] page_chart) = true
  /\ animating ch' = false
  /\ slices ch' = []
  /\ sum_spans (slices ch') == 0
  /\ range == Math_PI
  /\ ~ Qabs (sum_spans (slices ch') - range) <= 1 # 1000000000.
Proof.
  cbv zeta.
  split; [reflexivity|]. split; [reflexivity|]. split; [reflexivity|].
  split; [reflexivity|]. split; [reflexivity|]. split; [vm_compute; reflexivity|].
  vm_compute. intros H. apply H. reflexivity.
Qed.

(** C2. Once an update of positive total has been accepted and its
    transition has completed, the chart is idle again, consecutive stored
    segments share their boundary exactly, and the spans add up to
    [endAngle - startAngle] (exactly, hence within 1e-9). *)
Theorem committed_slices_contiguous_and_cover
        (ch : DonutChart) (newData : list DonutChartData.t) :
  animating ch = false ->
  0 < total_value (ensure_ids newData) ->
  let ch' := onComplete (updateData newData ch) in
  let range := Options.endAngle (options ch') - Options.startAngle (options ch') in
  animating ch' = false
  /\ contiguous (slices ch')
  /\ sum_spans (slices ch') == range
  /\ Qabs (sum_spans (slices ch') - range) <= 1 # 1000000000.
Proof.
  intros Hidle Hpos ch' range. subst ch' range.
  rewrite updateData_commit_slices, updateData_commit_options by assumption.
  assert (Hsum : sum_spans (pushed (updateData_loop ch (ensure_ids newData)))
                 == Options.endAngle (options ch) - Options.startAngle (options ch)).
  { apply updateData_loop_sum_spans. now apply positive_total_nonempty. }
  split; [now rewrite updateData_idle|].
  split; [apply updateData_loop_contiguous|].
  split; [exact Hsum|].
  cbn [Options.set_data Options.endAngle Options.startAngle].
  rewrite Hsum.
  setoid_replace (Options.endAngle (options ch) - Options.startAngle (options ch)
                  - (Options.endAngle (options ch) - Options.startAngle (options ch)))
    with 0 by ring.
  discriminate.
Qed.

Lemma committed_slices_contiguous_and_cover_witness :
  let ch' := onComplete (updateData scenario_data page_chart) in
  let range := Options.endAngle (options ch') - Options.startAngle (options ch') in
  animating ch' = false
  /\ contiguous (slices ch')
  /\ sum_spans (slices ch') == range
  /\ Qabs (sum_spans (slices ch') - range) <= 1 # 1000000000.
Proof.
  apply (committed_slices_contiguous_and_cover page_chart scenario_data);
    reflexivity.
Defined.

(* ================================================================= *)
(** ** Keys of the data items *)




(* ================================================================= *)
(** ** One transition at a time *)

(** C4. A call of [updateData] while a transition is running returns the
    chart as it was: the timeline with its targets, the stored options data
    and the registry are untouched, the frames that follow draw the same, and
    the completion of the running transition commits the same registry. *)
Theorem updateData_dropped_while_transitioning
        (ch : DonutChart) (newData : list DonutChartData.t) :
  animating ch = true ->
  let ch' := updateData newData ch in
  ch' = ch
  /\ timeline ch' = timeline ch
  /\ Options.data (options ch') = Options.data (options ch)
  /\ slices ch' = slices ch
  /\ (forall frames, ticks frames ch' = ticks frames ch)
  /\ (forall frames, onComplete (ticks frames ch') = onComplete (ticks frames ch)).
Proof.
  intros Hbusy ch'.
  assert (Hsame : ch' = ch) by (unfold ch', updateData; now rewrite Hbusy).
  rewrite Hsame. repeat split; reflexivity.
Qed.

Lemma updateData_dropped_while_transitioning_witness :
  let busy := updateData scenario_data page_chart in
  animating busy = true /\ updateData initialChartData busy = busy.
Proof.
  split; [reflexivity|].
  apply (updateData_dropped_while_transitioning
           (updateData scenario_data page_chart) initialChartData).
  reflexivity.
Defined.

(* ================================================================= *)
(** ** Comparisons of binary64 numbers *)

Lemma compare_cont_swap (m1 m2 : positive) :
  Pos.compare_cont Eq m2 m1 = CompOpp (Pos.compare_cont Eq m1 m2).
Proof. rewrite Pos.compare_cont_antisym. reflexivity. Qed.

Lemma SFcompare_Lt_Gt (f1 f2 : spec_float) :
  SFcompare f1 f2 = Some Lt -> SFcompare f2 f1 = Some Gt.
Proof.
  destruct f1 as [s1|s1| |s1 m1 e1], f2 as [s2|s2| |s2 m2 e2];
    try destruct s1; try destruct s2; cbn [SFcompare];
    try discriminate; try reflexivity;
    rewrite (Z.compare_antisym e1 e2), (compare_cont_swap m1 m2);
    destruct (e1 ?= e2)%Z; cbn [CompOpp];
    try discriminate; try reflexivity;
    destruct (Pos.compare_cont Eq m1 m2); cbn [CompOpp];
    try discriminate; reflexivity.
Qed.

(** [a < b] excludes [b <= a]. *)
Lemma ltb_not_leb (a b : float) :
  (a <? b)%float = true -> (b <=? a)%float = false.
Proof.
  rewrite ltb_spec, leb_spec. unfold SFltb, SFleb.
  destruct (SFcompare (Prim2SF a) (Prim2SF b)) as [[| |]|] eqn:H; try discriminate.
  intros _. now rewrite (SFcompare_Lt_Gt _ _ H).
Qed.

(* ================================================================= *)
(** ** The degenerate arc *)

Lemma step_moves_spec (step a : float) :
  step_moves step a = true ->
  (a <=? a)%float = true
  /\ (a + step <=? a)%float = false
  /\ (a <=? a - step)%float = false.
Proof.
  unfold step_moves. intros H.
  apply andb_prop in H. destruct H as (H & Hdown).
  apply andb_prop in H. destruct H as (Hrefl & Hup).
  apply negb_true_iff in Hup, Hdown. auto.
Qed.

Section DegenerateArc.

Variables Math_cos Math_sin : float -> float.

(** With equal start and end angle every loop runs once, where the step
    moves the angle. *)
Lemma arc_points_degenerate (n : nat) (step innerRadius outerRadius a : float) :
  step_moves step a = true ->
  arc_points Math_cos Math_sin (S (S n)) step innerRadius outerRadius a a
  = Some [ polar Math_cos Math_sin outerRadius a;
           polar Math_cos Math_sin outerRadius a;
           polar Math_cos Math_sin innerRadius a;
           polar Math_cos Math_sin innerRadius a ].
Proof.
  intros Hstep. apply step_moves_spec in Hstep.
  destruct Hstep as (Hrefl & Hup & Hdown).
  unfold arc_points.
  cbn [outer_arc]. rewrite Hrefl.
  destruct n as [|n]; cbn [outer_arc]; rewrite Hup;
    cbn [inner_arc app]; rewrite Hrefl;
    cbn [inner_arc]; rewrite Hdown;
    reflexivity.
Qed.

(** The point list always ends with the explicitly pushed start point, so
    reading [points[0]] never fails. *)
Lemma drawDonutSlice_no_TypeError (fuel : nat)
      (innerRadius outerRadius startAngle endAngle : float) (color : Z) :
  drawDonutSlice Math_cos Math_sin fuel innerRadius outerRadius
                 startAngle endAngle color
  <> Some TypeError.
Proof.
  unfold drawDonutSlice, arc_points.
  destruct (outer_arc _ _ _ _ _ _ _ _) as [outer|]; [|discriminate].
  destruct (inner_arc _ _ _ _ _ _ _ _) as [both|]; [|discriminate].
  destruct both; discriminate.
Qed.

(** At 2^48 the step is lost: the angle of the outer loop stays where it is
    and the loop condition holds for ever. *)
Lemma outer_arc_stuck (fuel : nat) (outerRadius : float) :
  forall points,
    outer_arc Math_cos Math_sin fuel precision outerRadius two_pow_48 two_pow_48
              points
    = None.
Proof.
  induction fuel as [|fuel IH]; intros points; [reflexivity|].
  cbn [outer_arc].
  change (two_pow_48 <=? two_pow_48)%float with true.
  change (two_pow_48 + precision)%float with two_pow_48.
  cbv iota. apply IH.
Qed.

End DegenerateArc.

(** C7, as stated.  At the angle 2^48 adding 0.03 gives 2^48 again.  With
    start and end angle both 2^48 the first loop of [drawDonutSlice] never
    leaves its condition: the call returns no point list, however many
    iterations it is given. *)
Lemma degenerate_slice_never_returns :
  (two_pow_48 =? two_pow_48)%float = true
  /\ (two_pow_48 + precision)%float = two_pow_48
  /\ (forall (Math_cos Math_sin : float -> float) (fuel : nat)
            (innerRadius outerRadius : float) (color : Z),
         drawDonutSlice Math_cos Math_sin fuel innerRadius outerRadius
                        two_pow_48 two_pow_48 color
         = None).
Proof.
  split; [reflexivity|]. split; [reflexivity|].
  intros Math_cos Math_sin fuel innerRadius outerRadius color.
  unfold drawDonutSlice, arc_points.
  now rewrite outer_arc_stuck.
Qed.

(** C7. With [startAngle] equal to [endAngle], whatever the radii, and
    wherever the step moves the angle (it does not from 2^48 on), the point
    list is the outer point twice followed by the inner point twice;
    [drawDonutSlice] ends normally (no [TypeError], no exhausted loop) and
    the closed path it draws encloses zero area. *)
Theorem degenerate_slice_draws_nothing
        (Math_cos Math_sin : float -> float) (n : nat)
        (innerRadius outerRadius a : float) (color : Z) :
  let outer := polar Math_cos Math_sin outerRadius a in
  let inner := polar Math_cos Math_sin innerRadius a in
  (forall step,
      step_moves step a = true ->
      arc_points Math_cos Math_sin (S (S n)) step innerRadius outerRadius a a
      = Some [outer; outer; inner; inner])
  /\ (step_moves precision a = true ->
      drawDonutSlice Math_cos Math_sin (S (S n)) innerRadius outerRadius a a color
      = Some (Normal {| fill := color; moveTo := outer;
                        lineTo := [outer; inner; inner] |}))
  /\ (forall val : float -> Q,
         twice_area val {| fill := color; moveTo := outer;
                           lineTo := [outer; inner; inner] |}
         == 0).
Proof.
  intros outer inner. split; [|split].
  - intros step Hstep. now apply arc_points_degenerate.
  - intros Hstep. unfold drawDonutSlice.
    rewrite arc_points_degenerate by assumption. reflexivity.
  - intros val. unfold twice_area.
    cbn [moveTo lineTo shoelace_from]. unfold cross. ring.
Qed.

Lemma degenerate_slice_draws_nothing_witness :
  step_moves precision 0.5%float = true
  /\ drawDonutSlice (fun a => a) (fun a => (1 - a)%float) 2 100 160 0.5 0.5 5195493
     = Some (Normal
               {| fill := 5195493;
                  moveTo := polar (fun a => a) (fun a => (1 - a)%float) 160 0.5;
                  lineTo := [ polar (fun a => a) (fun a => (1 - a)%float) 160 0.5;
                              polar (fun a => a) (fun a => (1 - a)%float) 100 0.5;
                              polar (fun a => a) (fun a => (1 - a)%float) 100 0.5 ] |}).
Proof.
  split; [reflexivity|].
  apply (proj1 (proj2 (degenerate_slice_draws_nothing
                         (fun a => a) (fun a => (1 - a)%float) 0 100 160 0.5
                         5195493))).
  reflexivity.
Defined.

(* ================================================================= *)
(** ** The scene during and after a transition *)

Lemma forEach_from_invariant {A St : Type} (P : St -> Prop)
      (body : St -> nat -> A -> St) (l : list A) :
  (forall s i a, In a l -> P s -> P (body s i a)) ->
  forall i s, P s -> P (forEach_from body i l s).
Proof.
  induction l as [|a l IH]; intros Hstep i s Hs; simpl; [assumption|].
  apply IH.
  - intros s' i' a' Hin. apply Hstep. now right.
  - apply Hstep; [now left|assumption].
Qed.

(** An iteration of the slice loop allocates and attaches, nothing else. *)
Lemma updateData_body_world (o : Options.t) (data : list KeyedData.t)
      (old : list SliceData.t) (totalAngle : Q) (lastIndex : Z) (cc : option nat)
      (st : Loop) (index : nat) (item : AngleData.t) :
  let st' := updateData_body o data old totalAngle lastIndex cc st index item in
  (fresh (world st) <= fresh (world st'))%nat
  /\ stage (world st') = stage (world st)
  /\ drawn (world st') = drawn (world st)
  /\ incl (chartChildren (world st)) (chartChildren (world st')).
Proof.
  unfold updateData_body.
  destruct (find_slice (AngleData.id item) old), (find_data (AngleData.id item) data);
    try destruct cc; simpl; repeat split; try lia; try apply incl_refl;
    apply incl_appl, incl_refl.
Qed.

Lemma updateData_loop_world (ch : DonutChart) (data : list KeyedData.t) :
  let w' := world (updateData_loop ch data) in
  (fresh (app ch) <= fresh w')%nat
  /\ stage w' = stage (app ch)
  /\ drawn w' = drawn (app ch)
  /\ incl (chartChildren (app ch)) (chartChildren w').
Proof.
  unfold updateData_loop, forEach.
  match goal with
  | |- context [forEach_from ?b 0 ?l ?st] =>
      apply (forEach_from_invariant
               (fun s => (fresh (app ch) <= fresh (world s))%nat
                         /\ stage (world s) = stage (app ch)
                         /\ drawn (world s) = drawn (app ch)
                         /\ incl (chartChildren (app ch)) (chartChildren (world s)))
               b l)
  end.
  - intros s i a _ (Hf & Hs & Hd & Hc).
    match goal with
    | |- context [updateData_body ?o ?d ?old ?T ?last ?c s i a] =>
        destruct (updateData_body_world o d old T last c s i a)
          as (Hf' & Hs' & Hd' & Hc')
    end.
    repeat split; try congruence; try lia.
    eapply incl_tran; eassumption.
  - simpl. repeat split; try lia. apply incl_refl.
Qed.

(** A frame only draws. *)
Lemma tween_frame_world (o : Options.t) (entries : list Tween) (w : Pixi)
      (u : Update) :
  let w' := tween_frame o entries w u in
  fresh w' = fresh w /\ stage w' = stage w
  /\ chartChildren w' = chartChildren w /\ pointerdown w' = pointerdown w.
Proof.
  unfold tween_frame. destruct (nth_error entries (up_entry u)); now repeat split.
Qed.

Lemma tween_frames_world (o : Options.t) (entries : list Tween) (frame : Frame) :
  forall w,
    let w' := fold_left (tween_frame o entries) frame w in
    fresh w' = fresh w /\ stage w' = stage w
    /\ chartChildren w' = chartChildren w /\ pointerdown w' = pointerdown w.
Proof.
  induction frame as [|u frame IH]; intros w; cbn [fold_left]; [now repeat split|].
  destruct (IH (tween_frame o entries w u)) as (Hf & Hs & Hc & Hp).
  destruct (tween_frame_world o entries w u) as (Hf' & Hs' & Hc' & Hp').
  cbv zeta. rewrite Hf, Hs, Hc, Hp. now repeat split.
Qed.

Lemma tick_preserves (frame : Frame) (ch : DonutChart) :
  let ch' := tick frame ch in
  slices ch' = slices ch /\ options ch' = options ch
  /\ animating ch' = animating ch /\ timeline ch' = timeline ch
  /\ chartContainer ch' = chartContainer ch /\ valueText ch' = valueText ch
  /\ fresh (app ch') = fresh (app ch) /\ stage (app ch') = stage (app ch)
  /\ chartChildren (app ch') = chartChildren (app ch).
Proof.
  unfold tick. destruct (timeline ch) as [tl|] eqn:Htl; simpl.
  - destruct (tween_frames_world (options ch) (tweens tl) frame (app ch))
      as (Hf & Hs & Hc & _).
    rewrite Hf, Hs, Hc. now repeat split.
  - now repeat split.
Qed.

Lemma ticks_preserve (frames : list Frame) :
  forall ch,
    let ch' := ticks frames ch in
    slices ch' = slices ch /\ options ch' = options ch
    /\ animating ch' = animating ch /\ timeline ch' = timeline ch
    /\ chartContainer ch' = chartContainer ch /\ valueText ch' = valueText ch
    /\ fresh (app ch') = fresh (app ch) /\ stage (app ch') = stage (app ch)
    /\ chartChildren (app ch') = chartChildren (app ch).
Proof.
  induction frames as [|frame frames IH]; intros ch; simpl.
  - now repeat split.
  - destruct (IH (tick frame ch)) as (H1 & H2 & H3 & H4 & H5 & H6 & H7 & H8 & H9).
    destruct (tick_preserves frame ch)
      as (T1 & T2 & T3 & T4 & T5 & T6 & T7 & T8 & T9).
    unfold ticks in *. simpl.
    rewrite H1, H2, H3, H4, H5, H6, H7, H8, H9.
    now repeat split.
Qed.

(** What the removal loop of [onComplete] leaves attached: the children
    whose handle belongs to no old slice that went missing. *)
Lemma onComplete_loop_children (new : list SliceData.t) (l : list SliceData.t) :
  forall i w h,
    In h (chartChildren (forEach_from (onComplete_body new) i l w))
    <-> In h (chartChildren w)
        /\ (forall t, In t l -> handle (SliceData.container t) = h ->
                      find_slice (SliceData.id t) new <> None).
Proof.
  induction l as [|t l IH]; intros i w h; simpl.
  - split; [intros H; split; [assumption|contradiction]|now intros [H _]].
  - rewrite IH. unfold onComplete_body.
    destruct (find_slice (SliceData.id t) new) as [found|] eqn:Hfind.
    + split.
      * intros [Hin Hrest]. split; [assumption|].
        intros t' [<-|Hin'] Hh; [congruence|now apply Hrest].
      * intros [Hin Hall]. split; [assumption|].
        intros t' Hin'. apply Hall. now right.
    + simpl. rewrite filter_In, negb_true_iff, Nat.eqb_neq. split.
      * intros [[Hin Hne] Hrest]. split; [assumption|].
        intros t' [<-|Hin'] Hh; [congruence|now apply Hrest].
      * intros [Hin Hall]. split; [split; [assumption|]|].
        -- intros Heq. apply (Hall t); [now left|congruence|assumption].
        -- intros t' Hin'. apply Hall. now right.
Qed.

Lemma onComplete_loop_world (new : list SliceData.t) (l : list SliceData.t) :
  forall i w,
    let w' := forEach_from (onComplete_body new) i l w in
    fresh w' = fresh w /\ stage w' = stage w /\ drawn w' = drawn w.
Proof.
  induction l as [|t l IH]; intros i w; simpl; [now repeat split|].
  destruct (IH (S i) (onComplete_body new w i t)) as (Hf & Hs & Hd).
  rewrite Hf, Hs, Hd. unfold onComplete_body.
  destruct (find_slice (SliceData.id t) new); now repeat split.
Qed.

(* ================================================================= *)
(** ** Well-formed charts *)

Lemma registry_ok_nil (w : Pixi) : registry_ok w [].
Proof. split; intros; contradiction. Qed.

Lemma registry_ok_mono (w w' : Pixi) (l : list SliceData.t) :
  (fresh w <= fresh w')%nat -> registry_ok w l -> registry_ok w' l.
Proof.
  intros Hle [Hlt Hid]. split; [|exact Hid].
  intros t Hin. specialize (Hlt t Hin). lia.
Qed.

(** Extending a sound registry by one slice. *)
Lemma registry_ok_snoc (w w' : Pixi) (l : list SliceData.t) (t : SliceData.t) :
  (fresh w <= fresh w')%nat ->
  registry_ok w l ->
  (handle (SliceData.container t) < fresh w')%nat ->
  (forall t1, In t1 l ->
              handle (SliceData.container t1) = handle (SliceData.container t) ->
              strict_eq (SliceData.id t1) (SliceData.id t) = true) ->
  registry_ok w' (l ++ [t]).
Proof.
  intros Hle [Hlt Hid] Ht Hclash. split.
  - intros t' Hin. apply in_app_or in Hin. destruct Hin as [Hin|[<-|[]]].
    + specialize (Hlt t' Hin). lia.
    + assumption.
  - intros t1 t2 H1 H2 Hh.
    apply in_app_or in H1. apply in_app_or in H2.
    destruct H1 as [H1|[<-|[]]], H2 as [H2|[<-|[]]].
    + now apply Hid.
    + now apply Hclash.
    + rewrite strict_eq_sym. apply Hclash; [assumption|congruence].
    + apply strict_eq_refl.
Qed.

Section UpdateInvariant.

Variables (o : Options.t) (data : list KeyedData.t) (old : list SliceData.t)
          (totalAngle : Q) (lastIndex : Z) (cc : option nat) (f0 : nat).

Hypothesis old_allocated :
  forall ex, In ex old -> (handle (SliceData.container ex) < f0)%nat.

Hypothesis old_handles_identify :
  forall e1 e2,
    In e1 old -> In e2 old ->
    handle (SliceData.container e1) = handle (SliceData.container e2) ->
    strict_eq (SliceData.id e1) (SliceData.id e2) = true.

Lemma updateData_body_inv (st : Loop) (index : nat) (item : AngleData.t) :
  find_data (AngleData.id item) data <> None ->
  loop_inv f0 old st ->
  loop_inv f0 old (updateData_body o data old totalAngle lastIndex cc st index item).
Proof.
  intros Hfound (Hf0 & Hok & Hlink).
  destruct (find_data (AngleData.id item) data) as [sd|] eqn:Hsd; [|congruence].
  destruct (updateData_body_step o data old totalAngle lastIndex cc st index item
                                 sd Hsd) as (c & w & -> & Hreuse & Hnew).
  unfold loop_inv. cbn [world pushed].
  destruct (find_slice (AngleData.id item) old) as [ex|] eqn:Hex.
  - destruct (Hreuse ex eq_refl) as [-> ->].
    apply find_slice_id in Hex. destruct Hex as [Hin Heq].
    split; [assumption|]. split.
    + apply registry_ok_snoc with (w := world st);
        [lia|assumption|cbn; specialize (old_allocated ex Hin); lia|].
      cbn. intros t1 Ht1 Hh.
      eapply strict_eq_trans; [|exact Heq]. now apply Hlink.
    + intros t ex' Hin' Hex' Hh. apply in_app_or in Hin'.
      destruct Hin' as [Hin'|[<-|[]]]; [now apply Hlink|].
      cbn in *. eapply strict_eq_trans.
      * rewrite strict_eq_sym. exact Heq.
      * now apply old_handles_identify.
  - destruct (Hnew eq_refl) as (Hc & Hw & _).
    destruct Hok as [Hlt Hid].
    split; [lia|]. split.
    + apply registry_ok_snoc with (w := world st);
        [lia|now split|cbn; lia|].
      cbn. intros t1 Ht1 Hh. specialize (Hlt t1 Ht1). lia.
    + intros t ex' Hin' Hex' Hh. apply in_app_or in Hin'.
      destruct Hin' as [Hin'|[<-|[]]]; [now apply Hlink|].
      cbn in Hh. specialize (old_allocated ex' Hex'). lia.
Qed.

Lemma updateData_loop_inv (l : list AngleData.t) :
  (forall it, In it l -> find_data (AngleData.id it) data <> None) ->
  forall i st,
    loop_inv f0 old st ->
    loop_inv f0 old
             (forEach_from (updateData_body o data old totalAngle lastIndex cc) i l st).
Proof.
  intros Hfound. apply forEach_from_invariant.
  intros s i a Hin. apply updateData_body_inv. now apply Hfound.
Qed.

End UpdateInvariant.

Lemma updateData_loop_registry_ok (ch : DonutChart) (data : list KeyedData.t) :
  registry_ok (app ch) (slices ch) ->
  registry_ok (world (updateData_loop ch data)) (pushed (updateData_loop ch data)).
Proof.
  intros [Hlt Hid]. unfold updateData_loop, forEach.
  match goal with
  | |- context [forEach_from (updateData_body ?o ?d ?old ?T ?last ?c) 0 ?l ?st] =>
      destruct (updateData_loop_inv o d old T last c (fresh (app ch)) Hlt Hid l
                  (angle_data_found _ _) 0 st) as (_ & Hok & _)
  end.
  - split; [cbn; lia|]. split; [apply registry_ok_nil|]. intros t ex [].
  - exact Hok.
Qed.

Lemma createChart_body_registry_ok (o : Options.t) (total totalAngle : Q)
      (cc : option nat) (st : Loop) (index : nat) (d : KeyedData.t) :
  registry_ok (world st) (pushed st) ->
  registry_ok (world (createChart_body o total totalAngle cc st index d))
              (pushed (createChart_body o total totalAngle cc st index d)).
Proof.
  intros Hok. unfold createChart_body. cbn [new_object world pushed].
  apply registry_ok_snoc with (w := world st).
  - destruct cc; cbn; lia.
  - assumption.
  - destruct cc; cbn; lia.
  - destruct Hok as [Hlt _]. cbn. intros t1 Ht1 Hh. specialize (Hlt t1 Ht1). lia.
Qed.

Lemma createChart_registry_ok (ch : DonutChart) :
  registry_ok (app ch) (slices ch) ->
  registry_ok (app (createChart ch)) (slices (createChart ch)).
Proof.
  intros Hok. unfold createChart, forEach. cbn [new_object app slices].
  match goal with
  | |- context [forEach_from ?b 0 ?l ?st] =>
      apply (forEach_from_invariant
               (fun s => registry_ok (world s) (pushed s)) b l)
  end.
  - intros s i a _. apply createChart_body_registry_ok.
  - cbn. eapply registry_ok_mono; [|exact Hok]. cbn. lia.
Qed.

Lemma wf_constructor (w : Pixi) (o : DonutChartOptions.t) : wf (constructor w o).
Proof.
  unfold constructor, createEuroText. cbn [new_object].
  pose proof (createChart_registry_ok (initial_fields w o) (registry_ok_nil w))
    as Hok.
  split.
  - cbn [app slices]. eapply registry_ok_mono; [|exact Hok]. cbn. lia.
  - cbn [timeline]. unfold createChart. cbn. discriminate.
Qed.

Lemma wf_updateData (newData : list DonutChartData.t) (ch : DonutChart) :
  wf ch -> wf (updateData newData ch).
Proof.
  intros [Hok Htl]. unfold updateData.
  destruct (animating ch); [now split|].
  destruct (updateData_loop_world ch (ensure_ids newData)) as (Hf & _).
  split; cbn [app slices timeline].
  - eapply registry_ok_mono; eassumption.
  - intros tl [= <-]. cbn. now apply updateData_loop_registry_ok.
Qed.

Lemma wf_ticks (frames : list Frame) (ch : DonutChart) :
  wf ch -> wf (ticks frames ch).
Proof.
  intros [Hok Htl].
  destruct (ticks_preserve frames ch) as (Hs & _ & _ & Ht & _ & _ & Hf & _).
  unfold wf. rewrite Hs, Ht. split.
  - eapply registry_ok_mono; [|exact Hok]. lia.
  - intros tl Heq. eapply registry_ok_mono; [|now apply Htl]. lia.
Qed.

Lemma wf_onComplete (ch : DonutChart) : wf ch -> wf (onComplete ch).
Proof.
  intros [Hok Htl]. unfold onComplete.
  destruct (timeline ch) as [tl|] eqn:Heq;
    [|split; [assumption|intros tl' Heq'; congruence]].
  split; cbn [app slices timeline]; [|discriminate].
  unfold forEach.
  destruct (onComplete_loop_world (newSlices tl) (oldSlices tl) 0 (app ch))
    as (Hf & _).
  eapply registry_ok_mono; [|now apply Htl]. lia.
Qed.

(** Every chart a program can hold is well formed. *)
Lemma reachable_wf (ch : DonutChart) : reachable ch -> wf ch.
Proof.
  induction 1 as [w o|newData ch _ IH|frame ch _ IH|ch _ IH].
  - apply wf_constructor.
  - now apply wf_updateData.
  - now apply (wf_ticks [frame]).
  - now apply wf_onComplete.
Qed.

(* ================================================================= *)
(** ** Lookups by id *)

Lemma find_slice_none_ids (i : Id) (l : list SliceData.t) :
  find_slice i l = None
  <-> existsb (fun j => strict_eq j i) (map SliceData.id l) = false.
Proof.
  unfold find_slice. induction l as [|s l IH]; simpl; [tauto|].
  destruct (strict_eq (SliceData.id s) i); simpl; [|exact IH].
  split; discriminate.
Qed.

Lemma find_data_none_ids (i : Id) (l : list KeyedData.t) :
  find_data i l = None
  <-> existsb (fun j => strict_eq j i) (map KeyedData.id l) = false.
Proof.
  unfold find_data. induction l as [|s l IH]; simpl; [tauto|].
  destruct (strict_eq (KeyedData.id s) i); simpl; [|exact IH].
  split; discriminate.
Qed.

(** The slices the loop pushes answer to the same ids as the data. *)
Lemma updateData_loop_find (ch : DonutChart) (data : list KeyedData.t) (i : Id) :
  find_slice i (pushed (updateData_loop ch data)) = None
  <-> find_data i data = None.
Proof.
  destruct (updateData_loop_summary ch data) as (_ & Hi & _).
  now rewrite find_slice_none_ids, find_data_none_ids, Hi.
Qed.

(** A pushed slice whose id is in the old registry holds the container of
    the old slice found under that id. *)
Lemma updateData_loop_containers (ch : DonutChart) (data : list KeyedData.t) :
  forall t ex,
    In t (pushed (updateData_loop ch data)) ->
    find_slice (SliceData.id t) (slices ch) = Some ex ->
    SliceData.container t = SliceData.container ex.
Proof.
  unfold updateData_loop, forEach.
  match goal with
  | |- context [forEach_from ?b 0 ?l ?st] =>
      apply (forEach_from_invariant
               (fun s => forall t ex,
                    In t (pushed s) ->
                    find_slice (SliceData.id t) (slices ch) = Some ex ->
                    SliceData.container t = SliceData.container ex)
               b l)
  end.
  - intros s i a _ IH t ex. unfold updateData_body.
    destruct (find_slice (AngleData.id a) (slices ch)) as [existing|] eqn:Hex;
      destruct (find_data (AngleData.id a) data) as [sd|]; cbn [pushed];
      try (now apply IH);
      intros Hin Hfind; apply in_app_or in Hin;
      (destruct Hin as [Hin|[<-|[]]]; [now apply (IH t ex)|]);
      cbn [SliceData.id SliceData.container] in *; congruence.
  - cbn. intros t ex [].
Qed.

(** The chart when the transition started by an accepted [updateData] has
    run some frames and completed. *)
Lemma transition_commit (ch : DonutChart) (newData : list DonutChartData.t)
      (frames : list Frame) :
  animating ch = false ->
  let st := updateData_loop ch (ensure_ids newData) in
  let fin := onComplete (ticks frames (updateData newData ch)) in
  slices fin = pushed st
  /\ animating fin = false
  /\ timeline fin = None
  /\ options fin = Options.set_data (ensure_ids newData) (options ch)
  /\ (forall h,
         In h (chartChildren (app fin))
         <-> In h (chartChildren (world st))
             /\ (forall t, In t (slices ch) ->
                           handle (SliceData.container t) = h ->
                           find_slice (SliceData.id t) (pushed st) <> None)).
Proof.
  intros Hidle st fin. unfold fin.
  rewrite (updateData_idle newData ch Hidle). cbv zeta. fold st.
  match goal with
  | |- context [ticks frames ?u] =>
      destruct (ticks_preserve frames u) as (Hs & Ho & Ha & Ht & _ & _ & _ & _ & Hc)
  end.
  cbn [slices options animating timeline app] in Hs, Ho, Ha, Ht, Hc.
  unfold onComplete. rewrite Ht. cbn [slices animating timeline options app
                                            newSlices oldSlices].
  split; [reflexivity|]. split; [reflexivity|]. split; [reflexivity|].
  split; [exact Ho|].
  intros h. unfold forEach. rewrite onComplete_loop_children, Hc. reflexivity.
Qed.

(* ================================================================= *)
(** ** Identity across updates *)

(** C5. In a well-formed idle chart, an id that is in the registry and in the
    newly accepted dataset is, once the transition has completed, stored with
    the very container it had before: an object that existed before the
    update, and that stays attached to the chart if it was. *)
Theorem continuing_id_keeps_container
        (ch : DonutChart) (newData : list DonutChartData.t)
        (frames : list Frame) (i : Id) (s : SliceData.t) :
  wf ch ->
  animating ch = false ->
  find_slice i (slices ch) = Some s ->
  find_data i (ensure_ids newData) <> None ->
  let ch' := onComplete (ticks frames (updateData newData ch)) in
  exists s',
    find_slice i (slices ch') = Some s'
    /\ SliceData.container s' = SliceData.container s
    /\ (handle (SliceData.container s') < fresh (app ch))%nat
    /\ (attached (SliceData.container s) (app ch) ->
        attached (SliceData.container s') (app ch')).
Proof.
  intros [[Hlt Hid] _] Hidle Hold Hnew ch'.
  destruct (transition_commit ch newData frames Hidle)
    as (Hslices & _ & _ & _ & Hchildren).
  fold ch' in Hslices, Hchildren.
  assert (Hsome : find_slice i (slices ch') <> None).
  { rewrite Hslices. now rewrite updateData_loop_find. }
  destruct (find_slice i (slices ch')) as [s'|] eqn:Hs'; [|congruence].
  exists s'. split; [reflexivity|].
  destruct (find_slice_id _ _ _ Hs') as [Hin' Heq'].
  destruct (find_slice_id _ _ _ Hold) as [Hin Heq].
  assert (Hc : SliceData.container s' = SliceData.container s).
  { rewrite Hslices in Hin'.
    apply (updateData_loop_containers ch (ensure_ids newData) s' s Hin').
    rewrite <- Hold. now apply find_slice_congr. }
  split; [exact Hc|]. split; [rewrite Hc; now apply Hlt|].
  unfold attached. rewrite Hc. intros Hatt.
  apply Hchildren. split.
  - destruct (updateData_loop_world ch (ensure_ids newData)) as (_ & _ & _ & Hincl).
    now apply Hincl.
  - intros t Ht Hh.
    rewrite (find_slice_congr (SliceData.id t) i).
    + rewrite <- Hslices, Hs'. discriminate.
    + eapply strict_eq_trans; [|exact Heq]. now apply Hid.
Qed.

Lemma continuing_id_keeps_container_witness :
  exists s',
    find_slice (IdStr "segment1")
               (slices (onComplete (ticks [sample_frame]
                                          (updateData (firstn 2 initialChartData)
                                                      page_chart))))
    = Some s'
    /\ SliceData.container s' = {| handle := 2; child0 := 1 |}.
Proof.
  destruct (continuing_id_keeps_container
              page_chart (firstn 2 initialChartData) [sample_frame]
              (IdStr "segment1")
              (SliceData.mk {| handle := 2; child0 := 1 |} 30 (- Math_PI)
                            (- Math_PI + (30 / (0 + 30 + 50 + 70 + 40))
                                         * (0 - - Math_PI))
                            (IdStr "segment1"))
              (wf_constructor _ _) eq_refl eq_refl)
    as (s' & Hfind & Hc & _).
  - discriminate.
  - exists s'. split; [exact Hfind|exact Hc].
Defined.

(* ================================================================= *)
(** ** Deferred removal *)

(** C6. An id that is in the registry of an idle chart and absent from the
    newly accepted dataset stays as it is while the transition runs: the
    registry is the same list, the lookup returns the same entry (angles and
    container), and its container stays attached.  When the timeline
    completes the id is gone from the registry and its container is
    detached. *)
Theorem absent_id_removed_at_completion
        (ch : DonutChart) (newData : list DonutChartData.t)
        (frames : list Frame) (i : Id) (s : SliceData.t) :
  animating ch = false ->
  find_slice i (slices ch) = Some s ->
  find_data i (ensure_ids newData) = None ->
  let during := ticks frames (updateData newData ch) in
  let after := onComplete during in
  animating during = true
  /\ slices during = slices ch
  /\ find_slice i (slices during) = Some s
  /\ (attached (SliceData.container s) (app ch) ->
      attached (SliceData.container s) (app during))
  /\ animating after = false
  /\ find_slice i (slices after) = None
  /\ ~ attached (SliceData.container s) (app after).
Proof.
  intros Hidle Hold Hnew during after.
  destruct (ticks_preserve frames (updateData newData ch))
    as (Hs & _ & Ha & _ & _ & _ & _ & _ & Hc).
  fold during in Hs, Ha, Hc.
  rewrite updateData_idle in Hs, Ha, Hc by assumption.
  cbn [slices animating app] in Hs, Ha, Hc.
  destruct (transition_commit ch newData frames Hidle)
    as (Hslices & Hdone & _ & _ & Hchildren).
  fold during in Hslices, Hdone, Hchildren. fold after in Hslices, Hdone, Hchildren.
  assert (Hgone : find_slice i (pushed (updateData_loop ch (ensure_ids newData)))
                  = None) by now apply updateData_loop_find.
  split; [exact Ha|]. split; [exact Hs|]. split; [now rewrite Hs|].
  split.
  { unfold attached. rewrite Hc.
    destruct (updateData_loop_world ch (ensure_ids newData)) as (_ & _ & _ & Hincl).
    apply Hincl. }
  split; [exact Hdone|]. split; [now rewrite Hslices|].
  unfold attached. intros Hatt. apply Hchildren in Hatt.
  destruct Hatt as [_ Hall].
  destruct (find_slice_id _ _ _ Hold) as [Hin Heq].
  apply (Hall s Hin eq_refl).
  rewrite <- Hgone. now apply find_slice_congr.
Qed.

Lemma absent_id_removed_at_completion_witness :
  let during := ticks [sample_frame]
                      (updateData (firstn 2 initialChartData) page_chart) in
  find_slice (IdStr "segment4") (slices during)
  = find_slice (IdStr "segment4") (slices page_chart)
  /\ find_slice (IdStr "segment4") (slices (onComplete during)) = None.
Proof.
  destruct (find_slice (IdStr "segment4") (slices page_chart)) as [s|] eqn:Hs;
    [|discriminate Hs].
  destruct (absent_id_removed_at_completion
              page_chart (firstn 2 initialChartData) [sample_frame]
              (IdStr "segment4") s eq_refl Hs eq_refl)
    as (_ & _ & Hduring & _ & _ & Hafter & _).
  split; [exact Hduring|exact Hafter].
Defined.

(* ================================================================= *)
(** ** Duplicate ids *)


(** Two lists with the same ids are searched alike. *)
Lemma find_slice_at (i : Id) (segs : list SliceData.t) :
  forall (data : list KeyedData.t) (j : nat) (first : KeyedData.t),
    map SliceData.id segs = map KeyedData.id data ->
    nth_error data j = Some first ->
    strict_eq (KeyedData.id first) i = true ->
    (forall j' d', (j' < j)%nat -> nth_error data j' = Some d' ->
                   strict_eq (KeyedData.id d') i = false) ->
    find_slice i segs = nth_error segs j /\ nth_error segs j <> None.
Proof.
  induction segs as [|s segs IH]; intros data j first Hids Hj Heq Hmin.
  - destruct data; [destruct j; discriminate|discriminate].
  - destruct data as [|d data]; [discriminate|].
    injection Hids as Hid Hids. unfold find_slice. simpl. rewrite Hid.
    destruct j as [|j]; simpl in Hj.
    + injection Hj as ->. rewrite Heq. split; [reflexivity|discriminate].
    + rewrite (Hmin 0%nat d) by (lia || reflexivity).
      apply (IH data j first); try assumption.
      intros j' d' Hlt Hd'. apply (Hmin (S j') d'); [lia|exact Hd'].
Qed.




(* ================================================================= *)
(** ** Datasets of total zero or less *)

(** C3, refuted as stated: the dataset [zero_data] has total 0, yet the
    update is accepted by the idle chart: the transition starts, the stored
    options data is replaced, and at completion the registry is replaced
    (slice "b" is gone, slice "a" has value 0 and the whole range). *)
Lemma nonpositive_total_is_accepted :
  total_value (ensure_ids zero_data) <= 0
  /\ animating scenario_chart = false
  /\ let ch1 := updateData zero_data scenario_chart in
     animating ch1 = true
     /\ timeline ch1 <> None
     /\ Options.data (options ch1) = ensure_ids zero_data
     /\ slices (onComplete ch1) <> slices scenario_chart
     /\ slices (onComplete ch1)
        = [ SliceData.mk {| handle := 2; child0 := 1 |} 0 (- Math_PI) 0 (IdStr "a") ].
Proof.
  split; [vm_compute; discriminate|]. split; [reflexivity|].
  cbv zeta. split; [reflexivity|]. split; [discriminate|].
  split; [reflexivity|]. split; [discriminate|]. reflexivity.
Qed.

(** C3 as the code has it.  A dataset of total zero or less is treated like
    any other by an idle chart: the call leaves the registry as it was,
    starts the transition and replaces the stored options data; when the
    transition completes the registry holds one slice per item of the
    dataset, in order, each with the value stored under its id. *)
Theorem nonpositive_total_not_rejected
        (ch : DonutChart) (newData : list DonutChartData.t)
        (frames : list Frame) :
  animating ch = false ->
  total_value (ensure_ids newData) <= 0 ->
  let ch1 := updateData newData ch in
  let fin := onComplete (ticks frames ch1) in
  slices ch1 = slices ch
  /\ animating ch1 = true
  /\ (exists tl,
         timeline ch1 = Some tl
         /\ oldSlices tl = slices ch
         /\ map SliceData.id (newSlices tl) = map KeyedData.id (ensure_ids newData))
  /\ Options.data (options ch1) = ensure_ids newData
  /\ animating fin = false
  /\ map SliceData.id (slices fin) = map KeyedData.id (ensure_ids newData)
  /\ map SliceData.value (slices fin)
     = map (fun d => match find_data (KeyedData.id d) (ensure_ids newData) with
                     | Some d0 => KeyedData.value d0
                     | None => 0
                     end) (ensure_ids newData).
Proof.
  intros Hidle _ ch1 fin.
  destruct (transition_commit ch newData frames Hidle) as (Hslices & Hdone & _).
  fold ch1 in Hslices, Hdone. fold fin in Hslices, Hdone.
  destruct (updateData_loop_summary ch (ensure_ids newData)) as (_ & Hi & Hv).
  unfold ch1. rewrite (updateData_idle newData ch Hidle). cbv zeta.
  cbn [slices animating timeline options Options.set_data Options.data].
  split; [reflexivity|]. split; [reflexivity|].
  split.
  { eexists. split; [reflexivity|]. cbn [oldSlices newSlices].
    split; [reflexivity|exact Hi]. }
  split; [reflexivity|]. split; [exact Hdone|].
  rewrite Hslices. split; [exact Hi|exact Hv].
Qed.

Lemma nonpositive_total_not_rejected_witness :
  total_value (ensure_ids zero_data) <= 0
  /\ animating (updateData zero_data scenario_chart) = true
  /\ map SliceData.id
         (slices (onComplete (ticks [] (updateData zero_data scenario_chart))))
     = [IdStr "a"].
Proof.
  assert (Hle : total_value (ensure_ids zero_data) <= 0)
    by (vm_compute; discriminate).
  destruct (nonpositive_total_not_rejected scenario_chart zero_data []
                                           eq_refl Hle)
    as (_ & Hbusy & _ & _ & _ & Hids & _).
  split; [exact Hle|]. split; [exact Hbusy|exact Hids].
Defined.

(* ================================================================= *)
(** ** Construction *)





(* ================================================================= *)
(** ** The polygon of a slice *)

Section Polygon.

Variables Math_cos Math_sin : float -> float.
Variable step : float.

(** A loop only appends points of its own radius to the list. *)
Lemma outer_arc_appends (radius endAngle : float) (fuel : nat) :
  forall angle acc points,
    outer_arc Math_cos Math_sin fuel step radius endAngle angle acc = Some points ->
    exists more,
      points = acc ++ more
      /\ Forall (fun p => exists a, p = polar Math_cos Math_sin radius a) more.
Proof.
  induction fuel as [|fuel IH]; intros angle acc points H; [discriminate|].
  cbn [outer_arc] in H. destruct (angle <=? endAngle)%float.
  - destruct (IH _ _ _ H) as (more & -> & Hall).
    exists (polar Math_cos Math_sin radius angle :: more). split.
    + now rewrite <- app_assoc.
    + constructor; [now exists angle|assumption].
  - injection H as <-. exists []. split; [now rewrite app_nil_r|constructor].
Qed.

Lemma inner_arc_appends (radius startAngle : float) (fuel : nat) :
  forall angle acc points,
    inner_arc Math_cos Math_sin fuel step radius startAngle angle acc = Some points ->
    exists more,
      points = acc ++ more
      /\ Forall (fun p => exists a, p = polar Math_cos Math_sin radius a) more.
Proof.
  induction fuel as [|fuel IH]; intros angle acc points H; [discriminate|].
  cbn [inner_arc] in H. destruct (startAngle <=? angle)%float.
  - destruct (IH _ _ _ H) as (more & -> & Hall).
    exists (polar Math_cos Math_sin radius angle :: more). split.
    + now rewrite <- app_assoc.
    + constructor; [now exists angle|assumption].
  - injection H as <-. exists []. split; [now rewrite app_nil_r|constructor].
Qed.

(** Where the start angle is not below or at the end angle, neither loop
    runs. *)
Lemma arc_points_reversed (fuel : nat)
      (innerRadius outerRadius startAngle endAngle : float) :
  (startAngle <=? endAngle)%float = false ->
  arc_points Math_cos Math_sin (S fuel) step innerRadius outerRadius
             startAngle endAngle
  = Some [ polar Math_cos Math_sin outerRadius endAngle;
           polar Math_cos Math_sin innerRadius startAngle ].
Proof.
  intros Hlt. unfold arc_points. cbn [outer_arc]. rewrite Hlt.
  cbn [app inner_arc]. rewrite Hlt. reflexivity.
Qed.

End Polygon.

(** X2. For [endAngle < startAngle] neither loop runs: the path is the outer
    end point joined to the inner start point, a segment of zero area,
    whatever the radii. *)
Theorem drawDonutSlice_reversed
        (Math_cos Math_sin : float -> float) (fuel : nat)
        (innerRadius outerRadius startAngle endAngle : float) (color : Z) :
  (endAngle <? startAngle)%float = true ->
  let shape := {| fill := color;
                  moveTo := polar Math_cos Math_sin outerRadius endAngle;
                  lineTo := [polar Math_cos Math_sin innerRadius startAngle] |} in
  drawDonutSlice Math_cos Math_sin (S fuel) innerRadius outerRadius
                 startAngle endAngle color
  = Some (Normal shape)
  /\ (forall val : float -> Q, twice_area val shape == 0).
Proof.
  intros Hlt shape. apply ltb_not_leb in Hlt. split.
  - unfold drawDonutSlice.
    rewrite (arc_points_reversed Math_cos Math_sin precision fuel
                                 innerRadius outerRadius startAngle endAngle Hlt).
    reflexivity.
  - intros val. unfold twice_area, shape. cbn [moveTo lineTo shoelace_from].
    unfold cross. ring.
Qed.

Lemma drawDonutSlice_reversed_witness :
  drawDonutSlice (fun a => a) (fun a => (1 - a)%float) 1 100 160 0 (-0.5) 5195493
  = Some (Normal
            {| fill := 5195493;
               moveTo := polar (fun a => a) (fun a => (1 - a)%float) 160 (-0.5);
               lineTo := [polar (fun a => a) (fun a => (1 - a)%float) 100 0] |}).
Proof.
  apply (drawDonutSlice_reversed (fun a => a) (fun a => (1 - a)%float) 0 100 160
                                 0 (-0.5) 5195493).
  reflexivity.
Defined.

(** X3. [drawDonutSlice] never ends with the [TypeError] of an empty point
    list.  Whenever it returns, the path has the requested colour and at
    least two points: points of the outer radius, the exact outer end
    point, points of the inner radius and, last, the exact inner start
    point. *)
Theorem drawDonutSlice_ends_normally
        (Math_cos Math_sin : float -> float) (fuel : nat)
        (innerRadius outerRadius startAngle endAngle : float) (color : Z) :
  let call := drawDonutSlice Math_cos Math_sin fuel innerRadius outerRadius
                             startAngle endAngle color in
  call <> Some TypeError
  /\ (forall shape,
         call = Some (Normal shape) ->
         fill shape = color
         /\ lineTo shape <> []
         /\ exists outer inner,
              moveTo shape :: lineTo shape
              = outer ++ [polar Math_cos Math_sin outerRadius endAngle]
                      ++ inner ++ [polar Math_cos Math_sin innerRadius startAngle]
              /\ Forall (fun p => exists a, p = polar Math_cos Math_sin outerRadius a)
                        outer
              /\ Forall (fun p => exists a, p = polar Math_cos Math_sin innerRadius a)
                        inner).
Proof.
  intros call. split; [apply drawDonutSlice_no_TypeError|].
  intros shape. unfold call, drawDonutSlice, arc_points.
  destruct (outer_arc _ _ _ _ _ _ _ _) as [pts1|] eqn:Houter; [|discriminate].
  destruct (inner_arc _ _ _ _ _ _ _ _) as [pts2|] eqn:Hinner; [|discriminate].
  apply outer_arc_appends in Houter. destruct Houter as (outer & -> & Hout).
  apply inner_arc_appends in Hinner. destruct Hinner as (inner & -> & Hin).
  rewrite app_nil_l.
  assert (Hpts : ((outer ++ [polar Math_cos Math_sin outerRadius endAngle]) ++ inner)
                   ++ [polar Math_cos Math_sin innerRadius startAngle]
                 = outer ++ [polar Math_cos Math_sin outerRadius endAngle]
                         ++ inner ++ [polar Math_cos Math_sin innerRadius startAngle])
    by now rewrite <- !app_assoc.
  rewrite Hpts.
  destruct (outer ++ [polar Math_cos Math_sin outerRadius endAngle]
                  ++ inner ++ [polar Math_cos Math_sin innerRadius startAngle])
    as [|p0 rest] eqn:Hlist; [discriminate|].
  intros H. injection H as <-. cbn [fill moveTo lineTo].
  split; [reflexivity|]. split.
  - intros ->. apply (f_equal (@List.length Point)) in Hlist.
    rewrite !length_app in Hlist. cbn [List.length] in Hlist. lia.
  - exists outer, inner. now repeat split.
Qed.

Lemma drawDonutSlice_ends_normally_witness :
  exists shape,
    drawDonutSlice (fun a => a) (fun a => (1 - a)%float) 4 100 160 0 0.0625 5195493
    = Some (Normal shape)
    /\ fill shape = 5195493%Z
    /\ lineTo shape <> [].
Proof.
  eexists. split; [reflexivity|].
  destruct (proj2 (drawDonutSlice_ends_normally
                     (fun a => a) (fun a => (1 - a)%float) 4 100 160 0 0.0625
                     5195493) _ eq_refl) as (Hfill & Hline & _).
  split; [exact Hfill|exact Hline].
Defined.

(** From 0 to 0.75 the outer loop runs 25 times and the inner loop 25 times:
    the sum of 25 steps is above 0.75.  The path has 52 points. *)
Lemma drawDonutSlice_three_quarters :
  option_map (fun c => match c with
                       | Normal shape => Some (S (List.length (lineTo shape)))
                       | TypeError => None
                       end)
             (drawDonutSlice (fun a => a) (fun a => a) 30 100 160 0 0.75 5195493)
  = Some (Some 52%nat).
Proof. vm_compute. reflexivity. Qed.

(* ================================================================= *)
(** ** Keys, again *)

Lemma id_or_template_truthy (i : option Id) (index : nat) :
  truthy (Some (id_or_template i index)) = true.
Proof.
  unfold id_or_template.
  destruct i as [x|]; [|reflexivity].
  destruct (truthy (Some x)) eqn:Hx; [exact Hx|reflexivity].
Qed.

Lemma id_or_template_kept (x : Id) (index : nat) :
  truthy (Some x) = true -> id_or_template (Some x) index = x.
Proof. intros Hx. unfold id_or_template. now rewrite Hx. Qed.

(** X4. After keying every item has a truthy id (never the number zero or
    the empty string), so keying the keyed items again, at the same
    positions, changes nothing. *)
Theorem ensure_ids_stable (data : list DonutChartData.t) :
  (forall keyed, In keyed (ensure_ids data) ->
                 truthy (Some (KeyedData.id keyed)) = true)
  /\ ensure_ids (map unkey (ensure_ids data)) = ensure_ids data.
Proof.
  unfold ensure_ids, mapi. generalize 0%nat as i.
  induction data as [|item data IH]; intros i.
  - split; [intros keyed []|reflexivity].
  - destruct (IH (S i)) as [IHt IHs]. cbn [mapi_from map]. split.
    + intros keyed [<-|Hin]; [apply id_or_template_truthy|now apply IHt].
    + rewrite IHs. f_equal. unfold unkey.
      cbn [DonutChartData.value DonutChartData.color DonutChartData.id
           KeyedData.value KeyedData.color KeyedData.id].
      f_equal. apply id_or_template_kept, id_or_template_truthy.
Qed.

(* ================================================================= *)
(** ** The registry after construction *)

Lemma constructor_idle (w : Pixi) (o : DonutChartOptions.t) :
  animating (constructor w o) = false /\ timeline (constructor w o) = None.
Proof. split; reflexivity. Qed.



(* ================================================================= *)
(** ** What construction puts on the surface *)

Lemma createChart_loop_scene (o : Options.t) (total totalAngle : Q) (cc : nat)
      (l : list KeyedData.t) :
  forall i st,
    let st' := forEach_from (createChart_body o total totalAngle (Some cc)) i l st in
    exists new,
      pushed st' = pushed st ++ new
      /\ pointerdown (world st') = pointerdown (world st) ++ map listener_of new
      /\ drawn (world st')
         = rev (map (drawing_of o) (combine new l)) ++ drawn (world st)
      /\ chartChildren (world st')
         = chartChildren (world st)
             ++ map (fun s => handle (SliceData.container s)) new.
Proof.
  induction l as [|d l IH]; intros i st; cbn [forEach_from].
  - exists []. cbn. now rewrite !app_nil_r.
  - destruct (IH (S i) (createChart_body o total totalAngle (Some cc) st i d))
      as (new & Hp & Hl & Hd & Hc).
    rewrite Hp, Hl, Hd, Hc. unfold createChart_body.
    cbn [new_object world pushed draw chart_addChild on_pointerdown
         pointerdown drawn chartChildren fresh].
    eexists (_ :: new). rewrite <- !app_assoc. cbn [app].
    split; [reflexivity|]. split; [reflexivity|]. split; [|reflexivity].
    cbn [combine map rev]. rewrite <- app_assoc. reflexivity.
Qed.


(* ================================================================= *)
(** ** What an update allocates *)

Section UpdateAccount.

Variables (o : Options.t) (data : list KeyedData.t) (old : list SliceData.t)
          (totalAngle : Q) (lastIndex : Z) (cc : option nat).

Local Abbreviation body := (updateData_body o data old totalAngle lastIndex cc).
Local Abbreviation news l :=
  (List.length (filter (fun it => is_new old (AngleData.id it)) l)).

Lemma updateData_body_known (st : Loop) (index : nat) (item : AngleData.t) :
  is_new old (AngleData.id item) = false ->
  world (body st index item) = world st.
Proof.
  unfold is_new, updateData_body.
  destruct (find_slice (AngleData.id item) old); [|discriminate].
  now destruct (find_data (AngleData.id item) data).
Qed.

Lemma updateData_body_new (st : Loop) (index : nat) (item : AngleData.t) :
  find_data (AngleData.id item) data <> None ->
  is_new old (AngleData.id item) = true ->
  let w := world st in
  let w' := world (body st index item) in
  fresh w' = S (S (fresh w))
  /\ stage w' = stage w /\ drawn w' = drawn w
  /\ chartChildren w'
     = chartChildren w ++ match cc with Some _ => [S (fresh w)] | None => [] end
  /\ exists midAngle,
      pointerdown w' = pointerdown w ++ [(fresh w, (S (fresh w), midAngle))].
Proof.
  unfold is_new, updateData_body. intros Hfound Hnew.
  destruct (find_slice (AngleData.id item) old); [discriminate|].
  destruct (find_data (AngleData.id item) data); [|congruence].
  destruct cc; cbn; rewrite ?app_nil_r; repeat split; eexists; reflexivity.
Qed.

Lemma updateData_loop_account (l : list AngleData.t) :
  (forall it, In it l -> find_data (AngleData.id it) data <> None) ->
  forall i st,
    let w := world st in
    let w' := world (forEach_from body i l st) in
    fresh w' = (fresh w + 2 * news l)%nat
    /\ stage w' = stage w /\ drawn w' = drawn w
    /\ (exists kids,
           chartChildren w' = chartChildren w ++ kids
           /\ List.length kids = match cc with Some _ => news l | None => 0%nat end
           /\ forall h, In h kids -> (fresh w < h < fresh w')%nat)
    /\ (exists listeners,
           pointerdown w' = pointerdown w ++ listeners
           /\ List.length listeners = news l
           /\ forall e, In e listeners -> (fresh w <= fst e < fresh w')%nat)
    /\ (news l = 0%nat -> w' = w).
Proof.
  induction l as [|it l IH]; intros Hfound i st; cbn [forEach_from filter].
  - cbn [List.length]. split; [lia|]. split; [reflexivity|]. split; [reflexivity|].
    split; [|split; [|reflexivity]].
    + exists []. rewrite app_nil_r. split; [reflexivity|].
      split; [now destruct cc|intros h []].
    + exists []. rewrite app_nil_r. split; [reflexivity|].
      split; [reflexivity|intros e []].
  - destruct (IH (fun it' H => Hfound it' (or_intror H)) (S i) (body st i it))
      as (Hf & Hs & Hd & (kids & Hk & Hkl & Hkf) & (ls & Hl & Hll & Hlf) & Hz).
    destruct (is_new old (AngleData.id it)) eqn:Hnew.
    + destruct (updateData_body_new st i it (Hfound it (or_introl eq_refl)) Hnew)
        as (Hf1 & Hs1 & Hd1 & Hk1 & mid & Hl1).
      cbn [List.length]. rewrite Hf, Hs, Hd, Hf1, Hs1, Hd1.
      split; [lia|]. split; [reflexivity|]. split; [reflexivity|].
      split; [|split].
      * eexists. rewrite Hk, Hk1, <- app_assoc. split; [reflexivity|].
        rewrite length_app, Hkl. split; [now destruct cc|].
        intros h Hh. apply in_app_or in Hh. destruct Hh as [Hh|Hh].
        -- destruct cc; [|contradiction]. destruct Hh as [<-|[]]. lia.
        -- specialize (Hkf h Hh). lia.
      * eexists. rewrite Hl, Hl1, <- app_assoc. split; [reflexivity|].
        rewrite length_app, Hll. split; [reflexivity|].
        intros e He. apply in_app_or in He. destruct He as [[<-|[]]|He].
        -- cbn. lia.
        -- specialize (Hlf e He). lia.
      * discriminate.
    + rewrite (updateData_body_known st i it Hnew) in *.
      split; [exact Hf|]. split; [exact Hs|]. split; [exact Hd|].
      split; [|split; [|exact Hz]].
      * exists kids. split; [exact Hk|]. split; [exact Hkl|exact Hkf].
      * exists ls. split; [exact Hl|]. split; [exact Hll|exact Hlf].
Qed.

End UpdateAccount.

Lemma count_new_angle_data (old : list SliceData.t) (data : list KeyedData.t)
      (total : Q) :
  List.length (filter (fun it => is_new old (AngleData.id it)) (angle_data data total))
  = count_new old data.
Proof.
  unfold count_new, angle_data.
  induction data as [|d data IH]; [reflexivity|].
  cbn [map filter AngleData.id]. destruct (is_new old (KeyedData.id d)); cbn; lia.
Qed.

(** X8. An accepted update creates two objects (a graphics and its
    container) for every item whose id the registry does not know, and none
    for the others.  Each new container is attached to the chart container
    (when there is one) and each new graphics gets one pointerdown listener;
    the stage, the drawings, the earlier children and the earlier listeners
    are left as they were.  With no new id the surface is untouched. *)
Theorem updateData_allocates_per_new_id
        (ch : DonutChart) (newData : list DonutChartData.t) :
  animating ch = false ->
  let w := app ch in
  let w' := app (updateData newData ch) in
  let n := count_new (slices ch) (ensure_ids newData) in
  fresh w' = (fresh w + 2 * n)%nat
  /\ stage w' = stage w /\ drawn w' = drawn w
  /\ (exists kids,
         chartChildren w' = chartChildren w ++ kids
         /\ List.length kids = match chartContainer ch with
                               | Some _ => n
                               | None => 0%nat
                               end
         /\ forall h, In h kids -> (fresh w < h < fresh w')%nat)
  /\ (exists listeners,
         pointerdown w' = pointerdown w ++ listeners
         /\ List.length listeners = n
         /\ forall e, In e listeners -> (fresh w <= fst e < fresh w')%nat)
  /\ (n = 0%nat -> w' = w).
Proof.
  intros Hidle w w' n. subst w w' n.
  rewrite (updateData_idle newData ch Hidle). cbv zeta. cbn [app].
  unfold updateData_loop, forEach.
  rewrite <- (count_new_angle_data (slices ch) (ensure_ids newData)
                                   (total_value (ensure_ids newData))).
  match goal with
  | |- context [forEach_from (updateData_body ?o ?d ?old ?T ?last ?c) 0 ?l ?st] =>
      exact (updateData_loop_account o d old T last c l (angle_data_found _ _) 0 st)
  end.
Qed.

Lemma updateData_allocates_per_new_id_witness :
  fresh (app (updateData scenario_data page_chart)) = (fresh (app page_chart) + 4)%nat.
Proof.
  apply (updateData_allocates_per_new_id page_chart scenario_data).
  reflexivity.
Defined.

(* ================================================================= *)
(** ** Updates that bring known ids *)

Lemma find_slice_In (t : SliceData.t) (l : list SliceData.t) :
  In t l -> find_slice (SliceData.id t) l <> None.
Proof.
  intros Hin Hnone. unfold find_slice in Hnone.
  pose proof (find_none _ _ Hnone t Hin) as H. simpl in H.
  now rewrite strict_eq_refl in H.
Qed.

Lemma ticks_listeners (frames : list Frame) :
  forall ch, pointerdown (app (ticks frames ch)) = pointerdown (app ch).
Proof.
  induction frames as [|frame frames IH]; intros ch; [reflexivity|].
  unfold ticks in *. cbn [fold_left]. rewrite IH. unfold tick.
  destruct (timeline ch) as [tl|]; [|reflexivity].
  cbn [app].
  now destruct (tween_frames_world (options ch) (tweens tl) frame (app ch))
    as (_ & _ & _ & Hp).
Qed.

Lemma onComplete_loop_unchanged (new : list SliceData.t) (l : list SliceData.t) :
  (forall t, In t l -> find_slice (SliceData.id t) new <> None) ->
  forall i w, forEach_from (onComplete_body new) i l w = w.
Proof.
  induction l as [|t l IH]; intros Hall i w; cbn [forEach_from]; [reflexivity|].
  unfold onComplete_body at 2.
  destruct (find_slice (SliceData.id t) new) eqn:Hfind.
  - apply IH. intros t' Ht'. apply Hall. now right.
  - exfalso. apply (Hall t); [now left|assumption].
Qed.

Lemma transition_commit_app (ch : DonutChart) (newData : list DonutChartData.t)
      (frames : list Frame) :
  animating ch = false ->
  app (onComplete (ticks frames (updateData newData ch)))
  = forEach (onComplete_body (pushed (updateData_loop ch (ensure_ids newData))))
            (slices ch)
            (app (ticks frames (updateData newData ch))).
Proof.
  intros Hidle.
  destruct (ticks_preserve frames (updateData newData ch))
    as (_ & _ & _ & Ht & _).
  unfold onComplete at 1. rewrite Ht.
  rewrite (updateData_idle newData ch Hidle) at 1. reflexivity.
Qed.

Lemma count_new_zero (old : list SliceData.t) (data : list KeyedData.t) :
  (forall d, In d data -> find_slice (KeyedData.id d) old <> None) ->
  count_new old data = 0%nat.
Proof.
  unfold count_new. induction data as [|d data IH]; intros Hall; [reflexivity|].
  cbn [filter]. unfold is_new at 1.
  destruct (find_slice (KeyedData.id d) old) eqn:Hfind.
  - apply IH. intros d' Hd'. apply Hall. now right.
  - exfalso. apply (Hall d); [now left|assumption].
Qed.

Lemma updateData_known_ids_world (ch : DonutChart) (data : list KeyedData.t) :
  (forall d, In d data -> find_slice (KeyedData.id d) (slices ch) <> None) ->
  world (updateData_loop ch data) = app ch.
Proof.
  intros Hall. unfold updateData_loop, forEach.
  match goal with
  | |- context [forEach_from (updateData_body ?o ?d ?old ?T ?last ?c) 0 ?l ?st] =>
      destruct (updateData_loop_account o d old T last c l (angle_data_found _ _) 0 st)
        as (_ & _ & _ & _ & _ & Hz)
  end.
  apply Hz. rewrite count_new_angle_data. now apply count_new_zero.
Qed.

Lemma known_ids_surface (ch : DonutChart) (newData : list DonutChartData.t)
      (frames : list Frame) :
  animating ch = false ->
  (forall d, In d (ensure_ids newData) ->
             find_slice (KeyedData.id d) (slices ch) <> None) ->
  (forall t, In t (slices ch) ->
             find_data (SliceData.id t) (ensure_ids newData) <> None) ->
  let fin := onComplete (ticks frames (updateData newData ch)) in
  fresh (app fin) = fresh (app ch)
  /\ stage (app fin) = stage (app ch)
  /\ chartChildren (app fin) = chartChildren (app ch)
  /\ pointerdown (app fin) = pointerdown (app ch)
  /\ (frames = [] -> app fin = app ch).
Proof.
  intros Hidle Hknown Hkept fin. unfold fin.
  rewrite (transition_commit_app ch newData frames Hidle). unfold forEach.
  rewrite onComplete_loop_unchanged.
  2:{ intros t Ht. rewrite updateData_loop_find. now apply Hkept. }
  destruct (ticks_preserve frames (updateData newData ch))
    as (_ & _ & _ & _ & _ & _ & Hf & Hs & Hc).
  rewrite Hf, Hs, Hc, ticks_listeners.
  rewrite (updateData_idle newData ch Hidle). cbv zeta. cbn [app].
  rewrite (updateData_known_ids_world ch (ensure_ids newData) Hknown).
  repeat split. intros ->. reflexivity.
Qed.

(** Both conditions can be checked by evaluation. *)
Lemma all_known_by_forallb (old : list SliceData.t) (data : list KeyedData.t) :
  forallb (fun d => negb (is_new old (KeyedData.id d))) data = true ->
  forall d, In d data -> find_slice (KeyedData.id d) old <> None.
Proof.
  intros Hall d Hd. rewrite forallb_forall in Hall. specialize (Hall d Hd).
  unfold is_new in Hall. now destruct (find_slice (KeyedData.id d) old).
Qed.

Lemma all_kept_by_forallb (old : list SliceData.t) (data : list KeyedData.t) :
  forallb (fun t => match find_data (SliceData.id t) data with
                    | Some _ => true
                    | None => false
                    end) old = true ->
  forall t, In t old -> find_data (SliceData.id t) data <> None.
Proof.
  intros Hall t Ht. rewrite forallb_forall in Hall. specialize (Hall t Ht).
  cbv beta in Hall. now destruct (find_data (SliceData.id t) data).
Qed.

(** X9. An accepted update that brings no id the registry does not know and
    drops none of its ids creates no object and detaches none: when its
    transition has completed, the allocation counter, the stage, the
    children of the chart container and the listeners are as before; the
    frames only added drawings. *)
Theorem update_of_known_ids_keeps_surface
        (ch : DonutChart) (newData : list DonutChartData.t)
        (frames : list Frame) :
  animating ch = false ->
  (forall d, In d (ensure_ids newData) ->
             find_slice (KeyedData.id d) (slices ch) <> None) ->
  (forall t, In t (slices ch) ->
             find_data (SliceData.id t) (ensure_ids newData) <> None) ->
  let fin := onComplete (ticks frames (updateData newData ch)) in
  fresh (app fin) = fresh (app ch)
  /\ stage (app fin) = stage (app ch)
  /\ chartChildren (app fin) = chartChildren (app ch)
  /\ pointerdown (app fin) = pointerdown (app ch)
  /\ (frames = [] -> app fin = app ch).
Proof. exact (known_ids_surface ch newData frames). Qed.

Lemma update_of_known_ids_keeps_surface_witness :
  chartChildren (app (onComplete (ticks [sample_frame]
                                        (updateData initialChartData page_chart))))
  = chartChildren (app page_chart).
Proof.
  apply (update_of_known_ids_keeps_surface page_chart initialChartData [sample_frame]).
  - reflexivity.
  - apply all_known_by_forallb. vm_compute. reflexivity.
  - apply all_kept_by_forallb. vm_compute. reflexivity.
Defined.

(** X10. An accepted update with an empty dataset clears the chart: when its
    transition has completed the registry and the stored data are empty,
    nothing was allocated, and a child of the chart container is still
    attached exactly when it is the container of no slice of the old
    registry. *)
Theorem update_with_empty_data_clears
        (ch : DonutChart) (frames : list Frame) :
  animating ch = false ->
  let fin := onComplete (ticks frames (updateData [] ch)) in
  slices fin = []
  /\ Options.data (options fin) = []
  /\ animating fin = false
  /\ fresh (app fin) = fresh (app ch)
  /\ (forall h,
         In h (chartChildren (app fin))
         <-> In h (chartChildren (app ch))
             /\ forall t, In t (slices ch) -> handle (SliceData.container t) <> h).
Proof.
  intros Hidle fin.
  destruct (transition_commit ch [] frames Hidle)
    as (Hslices & Hdone & _ & Hopt & Hchildren).
  fold fin in Hslices, Hdone, Hopt, Hchildren.
  destruct (ticks_preserve frames (updateData [] ch))
    as (_ & _ & _ & _ & _ & _ & Hf & _).
  split; [exact Hslices|]. split; [now rewrite Hopt|]. split; [exact Hdone|].
  split.
  - unfold fin. rewrite (transition_commit_app ch [] frames Hidle). unfold forEach.
    destruct (onComplete_loop_world
                (pushed (updateData_loop ch (ensure_ids []))) (slices ch) 0
                (app (ticks frames (updateData [] ch)))) as (Hf' & _).
    rewrite Hf', Hf. now rewrite (updateData_idle [] ch Hidle).
  - intros h. rewrite Hchildren. cbn. split.
    + intros [Hin Hall]. split; [exact Hin|].
      intros t Ht Hh. now apply (Hall t Ht Hh).
    + intros [Hin Hall]. split; [exact Hin|].
      intros t Ht Hh _. now apply (Hall t Ht).
Qed.

Lemma update_with_empty_data_clears_witness :
  slices (onComplete (ticks [] (updateData [] page_chart))) = []
  /\ chartChildren (app (onComplete (ticks [] (updateData [] page_chart)))) = [].
Proof.
  destruct (update_with_empty_data_clears page_chart [] eq_refl) as (Hs & _).
  split; [exact Hs|reflexivity].
Defined.

(* ================================================================= *)
(** ** Applying the same data again *)

Lemma slice_list_ext (l1 l2 : list SliceData.t) :
  map seg_bounds l1 = map seg_bounds l2 ->
  map SliceData.id l1 = map SliceData.id l2 ->
  map SliceData.value l1 = map SliceData.value l2 ->
  map SliceData.container l1 = map SliceData.container l2 ->
  l1 = l2.
Proof.
  revert l2. induction l1 as [|[c v s e i] l1 IH]; intros [|[c' v' s' e' i'] l2];
    try discriminate; [reflexivity|].
  cbn. intros [= -> -> Hb] [= -> Hi] [= -> Hv] [= -> Hc].
  f_equal. now apply IH.
Qed.

(** With pairwise distinct ids, a registry that lists the ids of the data is
    searched position by position. *)
Lemma find_slice_distinct (data : list KeyedData.t) (segs : list SliceData.t)
      (k : nat) (d : KeyedData.t) :
  distinct_ids data ->
  map SliceData.id segs = map KeyedData.id data ->
  nth_error data k = Some d ->
  find_slice (KeyedData.id d) segs = nth_error segs k /\ nth_error segs k <> None.
Proof.
  intros Hdistinct Hids Hd.
  apply (find_slice_at (KeyedData.id d) segs data k d Hids Hd (strict_eq_refl _)).
  intros j' d' Hlt Hd'.
  destruct (strict_eq (KeyedData.id d') (KeyedData.id d)) eqn:Heq; [|reflexivity].
  specialize (Hdistinct j' k d' d Hd' Hd Heq). lia.
Qed.

(** An update whose distinct ids are those of the registry, in order,
    keeps every container in its place. *)
Lemma updateData_loop_same_containers (ch : DonutChart) (data : list KeyedData.t) :
  distinct_ids data ->
  map SliceData.id (slices ch) = map KeyedData.id data ->
  map SliceData.container (pushed (updateData_loop ch data))
  = map SliceData.container (slices ch).
Proof.
  intros Hdistinct Hids.
  destruct (updateData_loop_summary ch data) as (_ & Hi & _).
  apply nth_error_ext. intros k. rewrite !nth_error_map.
  destruct (nth_error data k) as [d|] eqn:Hd.
  - destruct (find_slice_distinct data (slices ch) k d Hdistinct Hids Hd)
      as [Hfind Hsome].
    destruct (nth_error (slices ch) k) as [s|] eqn:Hs; [|congruence].
    destruct (nth_error (pushed (updateData_loop ch data)) k) as [t|] eqn:Ht.
    + cbn. f_equal.
      apply (updateData_loop_containers ch data t s).
      * eapply nth_error_In. exact Ht.
      * pose proof (map_nth_error SliceData.id _ _ Ht) as Ht'.
        rewrite Hi, (map_nth_error KeyedData.id _ _ Hd) in Ht'.
        injection Ht' as <-. exact Hfind.
    + exfalso. apply nth_error_None in Ht.
      rewrite <- (length_map SliceData.id), Hi, length_map in Ht.
      apply nth_error_None in Ht. congruence.
  - apply nth_error_None in Hd.
    assert (H1 : nth_error (pushed (updateData_loop ch data)) k = None).
    { apply nth_error_None.
      now rewrite <- (length_map SliceData.id), Hi, length_map. }
    assert (H2 : nth_error (slices ch) k = None).
    { apply nth_error_None.
      now rewrite <- (length_map SliceData.id), Hids, length_map. }
    now rewrite H1, H2.
Qed.

(** X11. Applying a dataset a second time, once the transition of the first
    application has completed, gives the same registry angles, ids and
    values, the same stored options, no new object and the same children of
    the chart container; when the ids of the dataset are pairwise distinct
    the registry is the same list, containers included. *)
Theorem repeated_update_is_idempotent
        (ch : DonutChart) (newData : list DonutChartData.t)
        (frames1 frames2 : list Frame) :
  animating ch = false ->
  ~ total_value (ensure_ids newData) == 0 ->
  let ch1 := onComplete (ticks frames1 (updateData newData ch)) in
  let ch2 := onComplete (ticks frames2 (updateData newData ch1)) in
  map seg_bounds (slices ch2) = map seg_bounds (slices ch1)
  /\ map SliceData.id (slices ch2) = map SliceData.id (slices ch1)
  /\ map SliceData.value (slices ch2) = map SliceData.value (slices ch1)
  /\ options ch2 = options ch1
  /\ fresh (app ch2) = fresh (app ch1)
  /\ chartChildren (app ch2) = chartChildren (app ch1)
  /\ (distinct_ids (ensure_ids newData) -> slices ch2 = slices ch1).
Proof.
  intros Hidle _ ch1 ch2.
  set (data := ensure_ids newData).
  destruct (transition_commit ch newData frames1 Hidle)
    as (Hs1 & Hidle1 & _ & Ho1 & _).
  fold ch1 in Hs1, Hidle1, Ho1. fold data in Hs1, Ho1.
  destruct (transition_commit ch1 newData frames2 Hidle1)
    as (Hs2 & _ & _ & Ho2 & _).
  fold ch2 in Hs2, Ho2. fold data in Hs2, Ho2.
  destruct (updateData_loop_summary ch data) as (Hb1 & Hi1 & Hv1).
  destruct (updateData_loop_summary ch1 data) as (Hb2 & Hi2 & Hv2).
  rewrite Ho1 in Hb2.
  cbn [Options.set_data Options.endAngle Options.startAngle] in Hb2.
  assert (Hknown : forall d, In d data ->
                             find_slice (KeyedData.id d) (slices ch1) <> None).
  { intros d Hd. rewrite Hs1, updateData_loop_find. now apply find_data_In. }
  assert (Hkept : forall t, In t (slices ch1) ->
                            find_data (SliceData.id t) data <> None).
  { intros t Ht. rewrite <- (updateData_loop_find ch), <- Hs1.
    now apply find_slice_In. }
  destruct (known_ids_surface ch1 newData frames2 Hidle1 Hknown Hkept)
    as (Hf & _ & Hc & _).
  fold ch2 in Hf, Hc.
  assert (Hbounds : map seg_bounds (slices ch2) = map seg_bounds (slices ch1))
    by (rewrite Hs2, Hs1; congruence).
  assert (Hids : map SliceData.id (slices ch2) = map SliceData.id (slices ch1))
    by (rewrite Hs2, Hs1; congruence).
  assert (Hvals : map SliceData.value (slices ch2) = map SliceData.value (slices ch1))
    by (rewrite Hs2, Hs1; congruence).
  split; [exact Hbounds|]. split; [exact Hids|]. split; [exact Hvals|].
  split; [rewrite Ho2, Ho1; reflexivity|].
  split; [exact Hf|]. split; [exact Hc|].
  intros Hdistinct. apply slice_list_ext; try assumption.
  rewrite Hs2. apply updateData_loop_same_containers; [assumption|].
  rewrite Hs1. exact Hi1.
Qed.

Lemma repeated_update_is_idempotent_witness :
  slices (onComplete (ticks [] (updateData scenario_data
            (onComplete (ticks [] (updateData scenario_data page_chart))))))
  = slices (onComplete (ticks [] (updateData scenario_data page_chart))).
Proof.
  apply (repeated_update_is_idempotent page_chart scenario_data [] []).
  - reflexivity.
  - vm_compute. discriminate.
  - intros j k a b Hj Hk Heq.
    destruct j as [|[|j]], k as [|[|k]]; cbn in Hj, Hk; try reflexivity;
      try (injection Hj as <-; injection Hk as <-; discriminate Heq);
      try (destruct j; discriminate Hj); destruct k; discriminate Hk.
Defined.

(* ================================================================= *)
(** ** What is handed to the timeline *)

(** X12. An accepted update hands the timeline one entry per slice to
    commit, in order.  The entry of a slice animates towards its committed
    angles; it starts from the old angles of the slice when its id was in
    the registry, and with zero width at the committed start angle when the
    id is new.  Whenever its [onUpdate] runs, it draws on the graphics of
    that slice, with the radii of the options and the angles found in
    [animProps]. *)
Theorem transition_entries
        (ch : DonutChart) (newData : list DonutChartData.t)
        (k : nat) (s : SliceData.t) :
  animating ch = false ->
  nth_error (slices (onComplete (updateData newData ch))) k = Some s ->
  let u := updateData newData ch in
  exists tl tw,
    timeline u = Some tl
    /\ List.length (tweens tl) = List.length newData
    /\ nth_error (tweens tl) k = Some tw
    /\ tw_graphics tw = child0 (SliceData.container s)
    /\ tw_to_start tw = SliceData.startAngle s
    /\ tw_to_end tw = SliceData.endAngle s
    /\ match find_slice (SliceData.id s) (slices ch) with
       | Some old =>
           tw_from_start tw = SliceData.startAngle old
           /\ tw_from_end tw = SliceData.endAngle old
       | None =>
           tw_from_start tw = SliceData.startAngle s
           /\ tw_from_end tw = SliceData.startAngle s
       end
    /\ (forall startAngle endAngle,
          drawn (app (tick [ {| up_entry := k; up_startAngle := startAngle;
                                up_endAngle := endAngle |} ] u))
          = (child0 (SliceData.container s),
             {| arc_innerRadius := Options.innerRadius (options ch);
                arc_outerRadius := Options.outerRadius (options ch);
                arc_startAngle := startAngle;
                arc_endAngle := endAngle;
                arc_color := tw_color tw |})
              :: drawn (app u)).
Proof.
  intros Hidle Hs u. subst u.
  rewrite updateData_commit_slices in Hs by assumption.
  destruct (updateData_loop_summary ch (ensure_ids newData)) as (_ & Hi & _).
  rewrite (updateData_idle newData ch Hidle).
  set (data := ensure_ids newData) in *.
  set (segs := pushed (updateData_loop ch data)) in *.
  assert (Hk : nth_error (mapi (make_tween data (slices ch)) segs) k
               = Some (make_tween data (slices ch) k s))
    by (rewrite mapi_nth_error, Hs; reflexivity).
  eexists. exists (make_tween data (slices ch) k s).
  split; [reflexivity|]. cbn [tweens]. split.
  { fold segs. unfold mapi. rewrite mapi_from_length.
    rewrite <- (length_map SliceData.id segs), Hi, length_map.
    apply ensure_ids_length. }
  split; [exact Hk|].
  split; [reflexivity|]. split; [reflexivity|]. split; [reflexivity|]. split.
  - cbn [make_tween tw_from_start tw_from_end].
    destruct (find_slice (SliceData.id s) (slices ch)); split; reflexivity.
  - intros startAngle endAngle.
    unfold tick. cbn [timeline app options tweens fold_left].
    unfold tween_frame. cbn [up_entry up_startAngle up_endAngle].
    fold segs. rewrite Hk. reflexivity.
Qed.

Lemma transition_entries_witness :
  exists tl tw,
    timeline (updateData scenario_data page_chart) = Some tl
    /\ nth_error (tweens tl) 1 = Some tw
    /\ tw_graphics tw = 12%nat
    /\ tw_to_end tw = 0.
Proof.
  destruct (slices (onComplete (updateData scenario_data page_chart)))
    as [|s0 [|s1 rest]] eqn:Hslices; try discriminate Hslices.
  destruct (transition_entries page_chart scenario_data 1 s1 eq_refl)
    as (tl & tw & Htl & _ & Hk & Hg & _ & He & _).
  { now rewrite Hslices. }
  exists tl, tw. split; [exact Htl|]. split; [exact Hk|].
  injection Hslices as _ <- _. split; [exact Hg|exact He].
Defined.

(* ================================================================= *)
(** ** Invariants of the charts a program can hold *)

Lemma lifecycle_constructor (w : Pixi) (o : DonutChartOptions.t) :
  lifecycle_ok (constructor w o).
Proof.
  destruct (constructor_summary w o) as (_ & Hi & _).
  split; [|split].
  - split; [discriminate|]. intros H. now contradiction H.
  - intros _. exact Hi.
  - intros tl [=].
Qed.

Lemma lifecycle_updateData (newData : list DonutChartData.t) (ch : DonutChart) :
  lifecycle_ok ch -> lifecycle_ok (updateData newData ch).
Proof.
  intros Hok. destruct (animating ch) eqn:Hbusy.
  - unfold updateData. now rewrite Hbusy.
  - rewrite (updateData_idle newData ch Hbusy). cbv zeta.
    destruct (updateData_loop_summary ch (ensure_ids newData)) as (_ & Hi & _).
    split; [|split]; cbn [animating timeline slices options].
    + split; [discriminate|reflexivity].
    + discriminate.
    + intros tl [= <-]. cbn [oldSlices newSlices tweens Options.set_data Options.data].
      split; [reflexivity|]. split; [exact Hi|].
      unfold mapi. apply mapi_from_length.
Qed.

Lemma lifecycle_tick (frame : Frame) (ch : DonutChart) :
  lifecycle_ok ch -> lifecycle_ok (tick frame ch).
Proof.
  intros Hok.
  destruct (tick_preserves frame ch) as (Hs & Ho & Ha & Ht & _).
  unfold lifecycle_ok. now rewrite Hs, Ho, Ha, Ht.
Qed.

Lemma lifecycle_onComplete (ch : DonutChart) :
  lifecycle_ok ch -> lifecycle_ok (onComplete ch).
Proof.
  intros (Hflag & Hrest & Hpending). unfold onComplete.
  destruct (timeline ch) as [tl|] eqn:Htl.
  - destruct (Hpending tl eq_refl) as (_ & Hids & _).
    split; [|split]; cbn [animating timeline slices options].
    + split; [discriminate|]. intros H. now contradiction H.
    + intros _. exact Hids.
    + intros tl' [=].
  - unfold lifecycle_ok. rewrite Htl. exact (conj Hflag (conj Hrest Hpending)).
Qed.

Lemma reachable_lifecycle (ch : DonutChart) : reachable ch -> lifecycle_ok ch.
Proof.
  induction 1 as [w o|newData ch _ IH|frame ch _ IH|ch _ IH].
  - apply lifecycle_constructor.
  - now apply lifecycle_updateData.
  - now apply lifecycle_tick.
  - now apply lifecycle_onComplete.
Qed.

(** X13. In every chart a program can hold the busy flag is set exactly
    while a timeline awaits completion.  At rest the registry lists the ids
    of the stored data, in order; while busy the registry is still the one
    the timeline started from, and the timeline holds one entry per slice it
    will commit, whose ids are those of the stored data. *)
Theorem flag_timeline_and_data_agree (ch : DonutChart) :
  reachable ch ->
  (animating ch = true <-> timeline ch <> None)
  /\ (animating ch = false ->
      map SliceData.id (slices ch) = map KeyedData.id (Options.data (options ch)))
  /\ (forall tl,
         timeline ch = Some tl ->
         oldSlices tl = slices ch
         /\ map SliceData.id (newSlices tl)
            = map KeyedData.id (Options.data (options ch))
         /\ List.length (tweens tl) = List.length (newSlices tl)).
Proof.
  intros Hreach. destruct (reachable_lifecycle ch Hreach) as (Hflag & Hrest & Hpending).
  split; [exact Hflag|]. split; [|exact Hpending].
  intros Hidle. apply Hrest.
  destruct (timeline ch) eqn:Htl; [|reflexivity].
  assert (animating ch = true) by (apply Hflag; discriminate). congruence.
Qed.

Lemma flag_timeline_and_data_agree_witness :
  map SliceData.id (slices (onComplete (updateData scenario_data page_chart)))
  = map KeyedData.id
        (Options.data (options (onComplete (updateData scenario_data page_chart)))).
Proof.
  assert (Hreach : reachable (onComplete (updateData scenario_data page_chart))).
  { apply reachable_onComplete, reachable_updateData.
    exact (reachable_constructor empty_stage (page_options initialChartData)). }
  destruct (flag_timeline_and_data_agree _ Hreach) as (_ & Hrest & _).
  apply Hrest. reflexivity.
Defined.

Lemma constructor_children (w : Pixi) (o : DonutChartOptions.t) :
  chartChildren (app (constructor w o))
  = chartChildren w
      ++ map (fun s => handle (SliceData.container s)) (slices (constructor w o)).
Proof.
  unfold constructor, createEuroText, createChart, forEach.
  cbn [new_object app options slices initial_fields].
  match goal with
  | |- context [forEach_from (createChart_body ?o' ?t ?T (Some ?c)) 0 ?l ?st] =>
      destruct (createChart_loop_scene o' t T c l 0 st) as (new & Hp & _ & _ & Hc)
  end.
  cbn [world pushed stage_addChild chartChildren] in Hp, Hc.
  cbn [stage_addChild chartChildren]. now rewrite Hp, Hc.
Qed.

Lemma scene_constructor (w : Pixi) (o : DonutChartOptions.t) :
  scene_ok (constructor w o).
Proof.
  split; [discriminate|]. split.
  - intros t Ht. unfold attached. rewrite constructor_children.
    apply in_or_app. right.
    now apply (in_map (fun s => handle (SliceData.container s))).
  - intros tl [=].
Qed.

Lemma updateData_loop_attached (ch : DonutChart) (data : list KeyedData.t) :
  chartContainer ch <> None ->
  (forall t, In t (slices ch) -> attached (SliceData.container t) (app ch)) ->
  forall t, In t (pushed (updateData_loop ch data)) ->
            In (handle (SliceData.container t))
               (chartChildren (world (updateData_loop ch data))).
Proof.
  intros Hcc Hold. unfold updateData_loop, forEach.
  match goal with
  | |- context [forEach_from ?b 0 ?l ?st] =>
      apply (forEach_from_invariant
               (fun s => incl (chartChildren (app ch)) (chartChildren (world s))
                         /\ forall t, In t (pushed s) ->
                                      In (handle (SliceData.container t))
                                         (chartChildren (world s)))
               b l)
  end.
  - intros s i a _ [Hincl Hatt]. unfold updateData_body.
    destruct (find_slice (AngleData.id a) (slices ch)) as [ex|] eqn:Hex;
      destruct (find_data (AngleData.id a) data) as [sd|];
      destruct (chartContainer ch) as [cc|]; try congruence;
      cbn [new_object pushed world chart_addChild on_pointerdown chartChildren];
      (split; [try assumption|]).
    + intros t Ht. apply in_app_or in Ht. destruct Ht as [Ht|[<-|[]]].
      * now apply Hatt.
      * cbn. apply Hincl. apply find_slice_id in Hex. now apply (Hold ex).
    + assumption.
    + now apply incl_appl.
    + intros t Ht. apply in_or_app. apply in_app_or in Ht.
      destruct Ht as [Ht|[<-|[]]]; [left; now apply Hatt|right; now left].
    + assumption.
  - cbn. split; [apply incl_refl|intros t []].
Qed.

Lemma updateData_loop_link (ch : DonutChart) (data : list KeyedData.t) :
  registry_ok (app ch) (slices ch) ->
  forall t ex,
    In t (pushed (updateData_loop ch data)) -> In ex (slices ch) ->
    handle (SliceData.container t) = handle (SliceData.container ex) ->
    strict_eq (SliceData.id t) (SliceData.id ex) = true.
Proof.
  intros [Hlt Hid]. unfold updateData_loop, forEach.
  match goal with
  | |- context [forEach_from (updateData_body ?o ?d ?old ?T ?last ?c) 0 ?l ?st] =>
      destruct (updateData_loop_inv o d old T last c (fresh (app ch)) Hlt Hid l
                  (angle_data_found _ _) 0 st) as (_ & _ & Hlink)
  end.
  - split; [cbn; lia|]. split; [apply registry_ok_nil|]. intros t ex [].
  - exact Hlink.
Qed.

Lemma scene_updateData (newData : list DonutChartData.t) (ch : DonutChart) :
  wf ch -> scene_ok ch -> scene_ok (updateData newData ch).
Proof.
  intros [Hreg _] (Hcc & Hatt & Hpending). destruct (animating ch) eqn:Hbusy.
  - unfold updateData. rewrite Hbusy. exact (conj Hcc (conj Hatt Hpending)).
  - rewrite (updateData_idle newData ch Hbusy). cbv zeta.
    destruct (updateData_loop_world ch (ensure_ids newData)) as (_ & _ & _ & Hincl).
    split; [exact Hcc|]. cbn [app slices timeline]. split.
    + intros t Ht. apply Hincl. now apply Hatt.
    + intros tl [= <-]. cbn [oldSlices newSlices].
      split; [reflexivity|]. split.
      * now apply updateData_loop_attached.
      * now apply updateData_loop_link.
Qed.

Lemma scene_tick (frame : Frame) (ch : DonutChart) :
  scene_ok ch -> scene_ok (tick frame ch).
Proof.
  intros Hok.
  destruct (tick_preserves frame ch) as (Hs & _ & _ & Ht & Hc & _ & _ & _ & Hk).
  unfold scene_ok, attached. now rewrite Hs, Ht, Hc, Hk.
Qed.

Lemma scene_onComplete (ch : DonutChart) : scene_ok ch -> scene_ok (onComplete ch).
Proof.
  intros (Hcc & Hatt & Hpending). unfold onComplete.
  destruct (timeline ch) as [tl|] eqn:Htl.
  - destruct (Hpending tl eq_refl) as (Hold & Hnew & Hlink).
    split; [exact Hcc|]. cbn [app slices timeline]. split; [|intros tl' [=]].
    intros t Ht. unfold attached, forEach. apply onComplete_loop_children.
    split; [now apply Hnew|].
    intros ex Hex Hh. rewrite Hold in Hex.
    rewrite <- (find_slice_congr (SliceData.id t) (SliceData.id ex)).
    + now apply find_slice_In.
    + apply Hlink; [assumption|assumption|congruence].
  - unfold scene_ok. rewrite Htl. exact (conj Hcc (conj Hatt Hpending)).
Qed.

Lemma reachable_scene (ch : DonutChart) : reachable ch -> scene_ok ch.
Proof.
  induction 1 as [w o|newData ch Hreach IH|frame ch _ IH|ch _ IH].
  - apply scene_constructor.
  - apply scene_updateData; [now apply reachable_wf|assumption].
  - now apply scene_tick.
  - now apply scene_onComplete.
Qed.

(** X14. In every chart a program can hold (built by the constructor and
    driven by updates, frames and completions) the registry is on the
    surface: each registered slice holds an allocated container that is
    attached to the chart container, and two entries hold the same container
    only when their ids are equal. *)
Theorem registered_slices_are_attached (ch : DonutChart) :
  reachable ch ->
  chartContainer ch <> None
  /\ (forall t, In t (slices ch) ->
                attached (SliceData.container t) (app ch)
                /\ (handle (SliceData.container t) < fresh (app ch))%nat)
  /\ (forall t1 t2,
         In t1 (slices ch) -> In t2 (slices ch) ->
         handle (SliceData.container t1) = handle (SliceData.container t2) ->
         strict_eq (SliceData.id t1) (SliceData.id t2) = true).
Proof.
  intros Hreach.
  destruct (reachable_scene ch Hreach) as (Hcc & Hatt & _).
  destruct (reachable_wf ch Hreach) as [[Hlt Hid] _].
  split; [exact Hcc|]. split; [|exact Hid].
  intros t Ht. split; [now apply Hatt|now apply Hlt].
Qed.

Lemma registered_slices_are_attached_witness :
  chartContainer (onComplete (updateData scenario_data page_chart)) <> None.
Proof.
  assert (Hreach : reachable (onComplete (updateData scenario_data page_chart))).
  { apply reachable_onComplete, reachable_updateData.
    exact (reachable_constructor empty_stage (page_options initialChartData)). }
  destruct (registered_slices_are_attached _ Hreach) as (Hcc & _).
  exact Hcc.
Defined.

(* ================================================================= *)
(** ** destroy *)

Lemma removeEventListeners_loop (l : list SliceData.t) :
  forall i w,
    let w' := forEach_from removeEventListeners_body i l w in
    fresh w' = fresh w /\ stage w' = stage w
    /\ chartChildren w' = chartChildren w /\ drawn w' = drawn w
    /\ forall e, In e (pointerdown w')
                 <-> In e (pointerdown w)
                     /\ forall t, In t l -> child0 (SliceData.container t) <> fst e.
Proof.
  induction l as [|s l IH]; intros i w; cbn [forEach_from].
  - do 4 (split; [reflexivity|]). intros e. split.
    + intros He. split; [exact He|intros t []].
    + now intros [He _].
  - destruct (IH (S i) (removeEventListeners_body w i s)) as (Hf & Hs & Hc & Hd & Hl).
    rewrite Hf, Hs, Hc, Hd. do 4 (split; [reflexivity|]).
    intros e. rewrite Hl.
    cbn [removeEventListeners_body removeAllListeners pointerdown].
    rewrite filter_In, negb_true_iff, Nat.eqb_neq. split.
    + intros [[Hin Hne] Hall]. split; [exact Hin|].
      intros t [<-|Ht]; [congruence|now apply Hall].
    + intros [Hin Hall]. split; [split; [exact Hin|]|].
      * intros Heq. apply (Hall s (or_introl eq_refl)). congruence.
      * intros t Ht. apply Hall. now right.
Qed.

Lemma destroy_rest (ch : DonutChart) :
  slices (destroy ch) = [] /\ chartContainer (destroy ch) = None
  /\ fresh (app (destroy ch)) = fresh (app ch)
  /\ chartChildren (app (destroy ch)) = chartChildren (app ch)
  /\ animating (destroy ch) = animating ch.
Proof.
  unfold destroy, removeEventListeners, forEach.
  cbn [app slices chartContainer animating].
  destruct (removeEventListeners_loop (slices ch) 0 (app ch)) as (Hf & _ & Hc & _).
  now repeat split.
Qed.

(** X15. [destroy] clears the registry and the references to the chart
    container and the text label, and removes the listeners of the graphics
    of the registered slices, those and no others.  It detaches nothing and
    erases no drawing: stage, chart children and drawings stay.  It leaves
    the busy flag and a running timeline alone.  Calling it again changes
    nothing. *)
Theorem destroy_releases (ch : DonutChart) :
  let d := destroy ch in
  slices d = [] /\ chartContainer d = None /\ valueText d = None
  /\ fresh (app d) = fresh (app ch) /\ stage (app d) = stage (app ch)
  /\ chartChildren (app d) = chartChildren (app ch)
  /\ drawn (app d) = drawn (app ch)
  /\ (forall e, In e (pointerdown (app d))
                <-> In e (pointerdown (app ch))
                    /\ forall t, In t (slices ch) ->
                                 child0 (SliceData.container t) <> fst e)
  /\ animating d = animating ch /\ timeline d = timeline ch
  /\ options d = options ch
  /\ destroy d = d.
Proof.
  intros d. subst d. unfold destroy, removeEventListeners, forEach.
  cbn [app options slices chartContainer valueText animating timeline].
  destruct (removeEventListeners_loop (slices ch) 0 (app ch))
    as (Hf & Hs & Hc & Hd & Hl).
  do 3 (split; [reflexivity|]).
  split; [exact Hf|]. split; [exact Hs|]. split; [exact Hc|]. split; [exact Hd|].
  split; [exact Hl|]. do 3 (split; [reflexivity|]). reflexivity.
Qed.

(** X16. [destroy] does not cancel a running transition: the destroyed
    chart stays busy, so it drops every [updateData], and when the timeline
    completes the registry is filled again with the slices the transition
    was heading for. *)
Theorem destroy_keeps_transition
        (ch : DonutChart) (tl : Timeline) (newData : list DonutChartData.t) :
  animating ch = true ->
  timeline ch = Some tl ->
  let d := destroy ch in
  updateData newData d = d
  /\ slices d = []
  /\ slices (onComplete d) = newSlices tl
  /\ animating (onComplete d) = false.
Proof.
  intros Hbusy Htl d. subst d. unfold updateData, onComplete, destroy, removeEventListeners.
  cbn [animating timeline slices]. rewrite Hbusy, Htl. repeat split.
Qed.

Lemma destroy_keeps_transition_witness :
  let busy := updateData scenario_data page_chart in
  updateData initialChartData (destroy busy) = destroy busy
  /\ List.length (slices (onComplete (destroy busy))) = 2%nat.
Proof.
  cbv zeta.
  destruct (timeline (updateData scenario_data page_chart)) as [tl|] eqn:Htl;
    [|discriminate Htl].
  destruct (destroy_keeps_transition (updateData scenario_data page_chart) tl
                                     initialChartData eq_refl Htl)
    as (Hdrop & _ & Hslices & _).
  split; [exact Hdrop|]. rewrite Hslices.
  injection Htl as <-. reflexivity.
Defined.

Lemma count_new_nil (data : list KeyedData.t) :
  count_new [] data = List.length data.
Proof.
  unfold count_new, is_new, find_slice.
  induction data as [|d data IH]; [reflexivity|].
  simpl in *. now f_equal.
Qed.

(** A slice pushed for an id the registry does not know holds a container
    allocated by the update. *)
Lemma updateData_loop_new_handles (ch : DonutChart) (data : list KeyedData.t) :
  forall t,
    In t (pushed (updateData_loop ch data)) ->
    find_slice (SliceData.id t) (slices ch) = None ->
    (fresh (app ch) < handle (SliceData.container t))%nat.
Proof.
  unfold updateData_loop, forEach.
  match goal with
  | |- context [forEach_from ?b 0 ?l ?st] =>
      apply (forEach_from_invariant
               (fun s => (fresh (app ch) <= fresh (world s))%nat
                         /\ forall t,
                             In t (pushed s) ->
                             find_slice (SliceData.id t) (slices ch) = None ->
                             (fresh (app ch) < handle (SliceData.container t))%nat)
               b l)
  end.
  - intros s i a _ [Hle Hall]. unfold updateData_body.
    destruct (find_slice (AngleData.id a) (slices ch)) as [ex|] eqn:Hex;
      destruct (find_data (AngleData.id a) data) as [sd|];
      cbn [new_object pushed world fresh on_pointerdown];
      try (split; [assumption|assumption]).
    + split; [assumption|]. intros t Ht Hnone. apply in_app_or in Ht.
      destruct Ht as [Ht|[<-|[]]]; [now apply Hall|].
      cbn in Hnone. congruence.
    + split; [destruct (chartContainer ch); cbn; lia|].
      intros t Ht Hnone. apply in_app_or in Ht.
      destruct Ht as [Ht|[<-|[]]]; [now apply Hall|]. cbn. lia.
  - cbn. split; [lia|intros t []].
Qed.

(** X17. An update accepted after [destroy] finds an empty registry and no
    chart container: it creates a graphics and a container for every item
    and attaches none of them; when its transition completes the registry
    holds one slice per item, each with a container created by the update,
    and the children of the chart container that was are unchanged. *)
Theorem update_after_destroy_attaches_nothing
        (ch : DonutChart) (newData : list DonutChartData.t)
        (frames : list Frame) :
  animating ch = false ->
  let u := updateData newData (destroy ch) in
  let fin := onComplete (ticks frames u) in
  fresh (app u) = (fresh (app ch) + 2 * List.length newData)%nat
  /\ chartChildren (app u) = chartChildren (app ch)
  /\ chartChildren (app fin) = chartChildren (app ch)
  /\ List.length (slices fin) = List.length newData
  /\ (forall t, In t (slices fin) ->
                (fresh (app ch) < handle (SliceData.container t))%nat).
Proof.
  intros Hidle u fin.
  destruct (destroy_rest ch) as (Hs & Hc & Hf & Hk & Ha).
  set (d := destroy ch) in *.
  assert (Hidle' : animating d = false) by congruence.
  set (data := ensure_ids newData).
  assert (Hworld : fresh (world (updateData_loop d data))
                   = (fresh (app ch) + 2 * List.length newData)%nat
                   /\ chartChildren (world (updateData_loop d data))
                      = chartChildren (app ch)).
  { unfold updateData_loop, forEach. rewrite Hs, Hc.
    match goal with
    | |- context [forEach_from (updateData_body ?o ?dd ?old ?T ?last ?c) 0 ?l ?st] =>
        destruct (updateData_loop_account o dd old T last c l (angle_data_found _ _)
                                          0 st)
          as (Hfresh & _ & _ & (kids & Hkids & Hlen & _) & _)
    end.
    cbn [world] in Hfresh, Hkids.
    rewrite count_new_angle_data, count_new_nil in Hfresh.
    destruct kids; [|discriminate Hlen].
    rewrite Hfresh, Hkids, app_nil_r, Hf, Hk.
    unfold data. now rewrite ensure_ids_length. }
  destruct Hworld as [Hfresh Hkids].
  assert (Hu : app u = world (updateData_loop d data))
    by (unfold u; now rewrite (updateData_idle newData d Hidle')).
  destruct (transition_commit d newData frames Hidle') as (Hslices & _).
  fold u in Hslices. fold fin in Hslices. fold data in Hslices.
  split; [now rewrite Hu|]. split; [now rewrite Hu|]. split; [|split].
  - unfold fin, u. rewrite (transition_commit_app d newData frames Hidle').
    rewrite Hs. unfold forEach. cbn [forEach_from].
    destruct (ticks_preserve frames (updateData newData d))
      as (_ & _ & _ & _ & _ & _ & _ & _ & Hck).
    rewrite Hck. fold u. now rewrite Hu.
  - rewrite Hslices.
    destruct (updateData_loop_summary d data) as (_ & Hi & _).
    rewrite <- (length_map SliceData.id), Hi, length_map.
    apply ensure_ids_length.
  - intros t Ht. rewrite Hslices in Ht. rewrite <- Hf.
    apply (updateData_loop_new_handles d data t Ht). now rewrite Hs.
Qed.

Lemma update_after_destroy_attaches_nothing_witness :
  chartChildren (app (updateData scenario_data (destroy page_chart)))
  = chartChildren (app page_chart).
Proof.
  apply (update_after_destroy_attaches_nothing page_chart scenario_data []).
  reflexivity.
Defined.

(* ================================================================= *)
(** ** The page *)

(** The keys depend on the supplied ids and the positions only. *)
Lemma ensure_ids_keys (data : list DonutChartData.t) :
  map KeyedData.id (ensure_ids data)
  = mapi (fun index i => id_or_template i index) (map DonutChartData.id data).
Proof.
  unfold ensure_ids, mapi. generalize 0%nat as k.
  induction data as [|item data IH]; intros k; [reflexivity|].
  cbn [mapi_from map KeyedData.id]. now rewrite IH.
Qed.

Lemma generateRandomData_ids (Math_random : nat -> Q)
      (baseData : list DonutChartData.t) :
  map DonutChartData.id (generateRandomData Math_random baseData)
  = map DonutChartData.id baseData.
Proof.
  unfold generateRandomData, mapi. generalize 0%nat as k.
  induction baseData as [|item data IH]; intros k; [reflexivity|].
  cbn [mapi_from map DonutChartData.id]. now rewrite IH.
Qed.

(** X18. [generateRandomData] returns as many items as it is given; each
    keeps its id and colour and gets the value [Math.random() * 30], which
    lies in [0, 30) when the random number lies in [0, 1).  The keys the
    chart derives from the result are those it derives from the input. *)
Theorem generateRandomData_keeps_items
        (Math_random : nat -> Q) (baseData : list DonutChartData.t) :
  let data := generateRandomData Math_random baseData in
  List.length data = List.length baseData
  /\ (forall k item,
         nth_error baseData k = Some item ->
         nth_error data k
         = Some (DonutChartData.mk (Math_random k * 30)
                                   (DonutChartData.color item)
                                   (DonutChartData.id item)))
  /\ ((forall k, 0 <= Math_random k /\ Math_random k < 1) ->
      forall item, In item data ->
                   0 <= DonutChartData.value item /\ DonutChartData.value item < 30)
  /\ map KeyedData.id (ensure_ids data) = map KeyedData.id (ensure_ids baseData).
Proof.
  intros data. subst data. split; [|split; [|split]].
  - apply mapi_from_length.
  - intros k item Hk. unfold generateRandomData. now rewrite mapi_nth_error, Hk.
  - intros Hrange item Hin. apply In_nth_error in Hin. destruct Hin as [k Hk].
    unfold generateRandomData in Hk. rewrite mapi_nth_error in Hk.
    destruct (nth_error baseData k); [|discriminate].
    injection Hk as <-. cbn [DonutChartData.value].
    destruct (Hrange k). lra.
  - now rewrite !ensure_ids_keys, generateRandomData_ids.
Qed.

Lemma generateRandomData_keeps_items_witness :
  (forall k : nat, 0 <= 1 # 3 /\ 1 # 3 < 1)
  /\ 0 <= (1 # 3) * 30 /\ (1 # 3) * 30 < 30.
Proof.
  assert (Hrange : forall k : nat, 0 <= 1 # 3 /\ 1 # 3 < 1)
    by (intros k; split; [discriminate|reflexivity]).
  split; [exact Hrange|].
  destruct (generateRandomData_keeps_items (fun _ => 1 # 3) initialChartData)
    as (_ & _ & Hvalues & _).
  apply (Hvalues Hrange
                 (DonutChartData.mk ((1 # 3) * 30) 5195493 (Some (IdStr "segment1")))).
  left. reflexivity.
Defined.

Lemma known_by_ids (segs : list SliceData.t) (data : list KeyedData.t) :
  map SliceData.id segs = map KeyedData.id data ->
  (forall d, In d data -> find_slice (KeyedData.id d) segs <> None)
  /\ (forall t, In t segs -> find_data (SliceData.id t) data <> None).
Proof.
  intros Hids. split.
  - intros d Hd. rewrite find_slice_none_ids, Hids, <- find_data_none_ids.
    now apply find_data_In.
  - intros t Ht. rewrite find_data_none_ids, <- Hids, <- find_slice_none_ids.
    now apply find_slice_In.
Qed.

Lemma page_inv_start (w : Pixi) (base : list DonutChartData.t) :
  page_inv w base {| chartData := base; chart := constructor w (page_options base) |}.
Proof.
  unfold page_inv. cbn [chartData chart].
  destruct (constructor_summary w (page_options base)) as (_ & Hi & _).
  split; [reflexivity|]. split; [exact Hi|]. split; [intros tl [=]|].
  do 3 (split; [reflexivity|]). reflexivity.
Qed.

Lemma page_inv_interval (w : Pixi) (base : list DonutChartData.t)
      (Math_random : nat -> Q) (pg : Page) :
  page_inv w base pg ->
  page_inv w base
           {| chartData := generateRandomData Math_random (chartData pg);
              chart := updateData (generateRandomData Math_random (chartData pg))
                                  (chart pg) |}.
Proof.
  intros (Hraw & Hids & Hpending & Hf & Hs & Hc & Hl).
  unfold page_inv. cbn [chartData chart] in *.
  set (data := generateRandomData Math_random (chartData pg)).
  assert (Hraw' : map DonutChartData.id data = map DonutChartData.id base)
    by (unfold data; now rewrite generateRandomData_ids).
  split; [exact Hraw'|].
  assert (Hkeys : map KeyedData.id (ensure_ids data)
                  = map KeyedData.id (ensure_ids base))
    by now rewrite !ensure_ids_keys, Hraw'.
  destruct (animating (chart pg)) eqn:Hbusy.
  - unfold updateData. rewrite Hbusy.
    exact (conj Hids (conj Hpending (conj Hf (conj Hs (conj Hc Hl))))).
  - rewrite (updateData_idle data (chart pg) Hbusy). cbv zeta.
    cbn [slices timeline app].
    destruct (updateData_loop_summary (chart pg) (ensure_ids data)) as (_ & Hi & _).
    rewrite (updateData_known_ids_world (chart pg) (ensure_ids data)).
    2:{ apply known_by_ids. now rewrite Hids, Hkeys. }
    split; [exact Hids|].
    split; [|exact (conj Hf (conj Hs (conj Hc Hl)))].
    intros tl [= <-]. cbn [oldSlices newSlices].
    split; [reflexivity|]. now rewrite Hi.
Qed.

Lemma page_inv_frame (w : Pixi) (base : list DonutChartData.t)
      (frame : Frame) (pg : Page) :
  page_inv w base pg ->
  page_inv w base {| chartData := chartData pg; chart := tick frame (chart pg) |}.
Proof.
  intros (Hraw & Hids & Hpending & Hf & Hs & Hc & Hl).
  unfold page_inv. cbn [chartData chart] in *.
  destruct (tick_preserves frame (chart pg))
    as (Hs' & _ & _ & Ht' & _ & _ & Hf' & Hst' & Hc').
  pose proof (ticks_listeners [frame] (chart pg)) as Hl'.
  change (ticks [frame] (chart pg)) with (tick frame (chart pg)) in Hl'.
  rewrite Hs', Ht', Hf', Hst', Hc', Hl'.
  exact (conj Hraw (conj Hids (conj Hpending (conj Hf (conj Hs (conj Hc Hl)))))).
Qed.

Lemma page_inv_complete (w : Pixi) (base : list DonutChartData.t) (pg : Page) :
  page_inv w base pg ->
  page_inv w base {| chartData := chartData pg; chart := onComplete (chart pg) |}.
Proof.
  intros (Hraw & Hids & Hpending & Hf & Hs & Hc & Hl).
  unfold page_inv. cbn [chartData chart] in *.
  unfold onComplete. destruct (timeline (chart pg)) as [tl|] eqn:Htl.
  - destruct (Hpending tl eq_refl) as [Hold Hnew].
    cbn [slices timeline app]. unfold forEach.
    rewrite onComplete_loop_unchanged.
    + split; [exact Hraw|]. split; [exact Hnew|].
      split; [intros tl' [=]|]. exact (conj Hf (conj Hs (conj Hc Hl))).
    + intros t Ht. rewrite Hold in Ht.
      rewrite find_slice_none_ids, Hnew, <- Hids, <- find_slice_none_ids.
      now apply find_slice_In.
  - rewrite Htl.
    exact (conj Hraw (conj Hids (conj Hpending (conj Hf (conj Hs (conj Hc Hl)))))).
Qed.

Lemma page_run_inv (w : Pixi) (base : list DonutChartData.t) (pg : Page) :
  page_run w base pg -> page_inv w base pg.
Proof.
  induction 1 as [|Math_random pg _ IH|frame pg _ IH|pg _ IH].
  - apply page_inv_start.
  - now apply page_inv_interval.
  - now apply page_inv_frame.
  - now apply page_inv_complete.
Qed.

(** X19. Along every run of the page (whatever the random values, and
    however intervals, frames and completions interleave) the chart keeps
    what construction gave it: the registry lists the same ids in the same
    order, no object is created, no slice container is attached or detached,
    no listener is added; the page's data keeps the ids it started with. *)
Theorem page_keeps_its_slices (w : Pixi) (base : list DonutChartData.t) (pg : Page) :
  page_run w base pg ->
  let ch := chart pg in
  let ch0 := constructor w (page_options base) in
  map DonutChartData.id (chartData pg) = map DonutChartData.id base
  /\ map SliceData.id (slices ch) = map SliceData.id (slices ch0)
  /\ fresh (app ch) = fresh (app ch0)
  /\ stage (app ch) = stage (app ch0)
  /\ chartChildren (app ch) = chartChildren (app ch0)
  /\ pointerdown (app ch) = pointerdown (app ch0).
Proof.
  intros Hrun ch ch0.
  destruct (page_run_inv w base pg Hrun) as (Hraw & Hids & _ & Hf & Hs & Hc & Hl).
  destruct (constructor_summary w (page_options base)) as (_ & Hi0 & _).
  fold ch0 in Hi0.
  split; [exact Hraw|]. split; [rewrite Hi0; exact Hids|].
  split; [exact Hf|]. split; [exact Hs|]. split; [exact Hc|exact Hl].
Qed.

Lemma page_keeps_its_slices_witness :
  let pg := {| chartData := generateRandomData (fun _ => 1 # 3) initialChartData;
               chart := onComplete
                          (updateData (generateRandomData (fun _ => 1 # 3)
                                                          initialChartData)
                                      page_chart) |} in
  fresh (app (chart pg)) = fresh (app page_chart).
Proof.
  cbv zeta.
  assert (Hrun : page_run empty_stage initialChartData
                   {| chartData := generateRandomData (fun _ => 1 # 3) initialChartData;
                      chart := onComplete
                                 (updateData (generateRandomData (fun _ => 1 # 3)
                                                                 initialChartData)
                                             page_chart) |}).
  { apply (page_complete empty_stage initialChartData
             {| chartData := generateRandomData (fun _ => 1 # 3) initialChartData;
                chart := updateData (generateRandomData (fun _ => 1 # 3)
                                                        initialChartData)
                                    page_chart |}).
    apply (page_interval empty_stage initialChartData (fun _ => 1 # 3)
             {| chartData := initialChartData; chart := page_chart |}).
    apply page_start. }
  destruct (page_keeps_its_slices _ _ _ Hrun) as (_ & _ & Hf & _).
  exact Hf.
Defined.
